(** * react-console: the console renderer of [src/index.js]

    [src/index.js] holds two revisions of the module, one after the other:
    - lines 1-293, embedded below as [RevA] (anchors and images are rendered,
      no tag validation, [render] without a [try]);
    - lines 294-627, embedded below as [RevB] (tag allow-list, [render] with a
      [try]/[catch], no anchor or image handling).

    Conventions of the embedding:
    - a JavaScript string is a [string]; [toLowerCase] is the ASCII part of
      [String.prototype.toLowerCase], so a statement that depends on the
      letters of a name is made for ASCII names ([asciiName]);
    - a style object is an association list in property-iteration order,
      which is insertion order for property names that are no array index;
      a statement that depends on the order is made for names that do not
      start with a digit ([plainKeys]);
    - a style value is the text that string concatenation yields for it
      (the number [0] of [fontSize: 0] is ["0"]);
    - the [subs] array that [recursivelyConcatenate] mutates through
      [push] is threaded: every function takes it and returns it;
    - [render] is given its three arguments (the defaults [console] and
      ["log"] are the caller's to supply); the assignment to the [name] of
      a wrapper at line 345 changes nothing that is observed here. *)

From Stdlib Require Import String Ascii List Bool Arith Lia.
Import ListNotations.
Set Warnings "-register-all".
Open Scope list_scope.
Open Scope string_scope.

(** ** Characters and strings *)

Definition isUpper (c : ascii) : bool :=
  Nat.leb 65 (nat_of_ascii c) && Nat.leb (nat_of_ascii c) 90.

Definition isLower (c : ascii) : bool :=
  Nat.leb 97 (nat_of_ascii c) && Nat.leb (nat_of_ascii c) 122.

Definition lowerChar (c : ascii) : ascii :=
  if isUpper c then ascii_of_nat (nat_of_ascii c + 32) else c.

(** [String.prototype.toLowerCase]. *)
Fixpoint toLowerCase (s : string) : string :=
  match s with
  | EmptyString => EmptyString
  | String c s' => String (lowerChar c) (toLowerCase s')
  end.

Definition startsWithChar (c : ascii) (s : string) : bool :=
  match s with
  | String d _ => Ascii.eqb c d
  | EmptyString => false
  end.

Definition tail (s : string) : string :=
  match s with
  | String _ s' => s'
  | EmptyString => EmptyString
  end.

(** [contains needle s]: [needle] occurs in [s] ([String.prototype.includes]). *)
Fixpoint contains (needle s : string) : bool :=
  String.prefix needle s ||
  match s with
  | EmptyString => false
  | String _ s' => contains needle s'
  end.

Definition newline : string := String (ascii_of_nat 10) EmptyString.

(** ** Style objects *)

Definition StyleMap : Type := list (string * string).

Fixpoint lookup (k : string) (o : StyleMap) : option string :=
  match o with
  | [] => None
  | (k', v) :: o' => if String.eqb k' k then Some v else lookup k o'
  end.

(** [o[k] = v]: an existing property keeps its place, a new one goes last. *)
Fixpoint setProp (k v : string) (o : StyleMap) : StyleMap :=
  match o with
  | [] => [(k, v)]
  | (k', v') :: o' =>
      if String.eqb k' k then (k', v) :: o' else (k', v') :: setProp k v o'
  end.

Definition assign1 (target : StyleMap) (source : option StyleMap) : StyleMap :=
  match source with
  | None => target
  | Some src => fold_left (fun o kv => setProp (fst kv) (snd kv) o) src target
  end.

(** [Object.assign(target, ...sources)]; an [undefined] source is skipped. *)
Definition objectAssign (target : StyleMap) (sources : list (option StyleMap))
  : StyleMap :=
  fold_left assign1 sources target.

Definition keys (o : StyleMap) : list string := map fst o.

(** A style object has each property once. *)
Definition wfStyle (o : StyleMap) : Prop := NoDup (keys o).

(** ** Props and host instances *)

(** The attribute values [styleForType] inspects with [typeof].  A number
    is given by the text that string concatenation yields for it. *)
Inductive JsVal : Type :=
| JUndefined
| JString (s : string)
| JNumber (text : string).

(** [v + "px"] and ["url(" + v + ")"]: the string a value concatenates as. *)
Definition toStr (v : JsVal) : string :=
  match v with
  | JUndefined => "undefined"
  | JString s => s
  | JNumber text => text
  end.

Record Props : Type := mkProps {
  style : option StyleMap;
  href : option string;
  width : JsVal;
  height : JsVal;
  src : JsVal
}.

Definition noProps : Props := mkProps None None JUndefined JUndefined JUndefined.

(** A committed child: a text instance ([createTextInstance] returns the
    string itself) or the object [createInstance] builds.  [RevB] stores no
    [props] in the instance and never reads them. *)
Inductive Node : Type :=
| Text (text : string)
| Instance (type : string) (props : Props) (istyle : StyleMap)
           (children : list Node).

(** ** The [for] loop of [recursivelyConcatenate]

    [forEach body children str subs] runs [body] on each child in
    order, threading the format string and the [subs] array. *)
Section ForEach.
Variable body : Node -> string -> list string -> string * list string.

Fixpoint forEach (children : list Node) (str : string)
         (subs : list string) : string * list string :=
  match children with
  | [] => (str, subs)
  | child :: rest =>
      let '(str', subs') := body child str subs in
      forEach rest str' subs'
  end.
End ForEach.

(** The branch [typeof child === "string"]:
    [subs.push(toCSSString(style)); string += "%c" + child]. *)
Definition textStep (toCSS : StyleMap -> string) (child : string)
           (str : string) (style : StyleMap) (subs : list string)
  : string * list string :=
  (str ++ "%c" ++ child, (subs ++ [toCSS style])%list).

(** ** Revision A: [src/index.js] lines 1-293 *)
Module RevA.

(** [prop.replace(/([A-Z])/g, "-$1")]. *)
Fixpoint replaceUpper (s : string) : string :=
  match s with
  | EmptyString => EmptyString
  | String c s' =>
      if isUpper c then String "-" (String c (replaceUpper s'))
      else String c (replaceUpper s')
  end.

Definition cssProp (prop : string) : string :=
  toLowerCase (replaceUpper prop).

Definition toCSSString (style : StyleMap) : string :=
  fold_left (fun cssString kv =>
               cssString ++ cssProp (fst kv) ++ ":" ++ snd kv ++ ";")
            style "".

Definition px (v : JsVal) : string :=
  match v with
  | JString s => s
  | _ => toStr v ++ "px"
  end.

Definition styleForType (type : string) (props : Props) : StyleMap :=
  if type =? "a" then [("color", "blue")]
  else if type =? "abbr" then
    [("textDecoration", "underline dotted"); ("fontStyle", "italic");
     ("fontWeight", "lighter")]
  else if (type =? "b") || (type =? "strong") then [("fontWeight", "bolder")]
  else if (type =? "del") || (type =? "s") then
    [("textDecoration", "line-through")]
  else if (type =? "em") || (type =? "i") then [("fontStyle", "italic")]
  else if type =? "img" then
    [("fontSize", "0"); ("paddingLeft", px (width props));
     ("paddingTop", px (height props));
     ("backgroundImage", "url(" ++ toStr (src props) ++ ")")]
  else if (type =? "ins") || (type =? "u") then
    [("textDecoration", "underline")]
  else if type =? "mark" then
    [("backgroundColor", "yellow"); ("color", "black")]
  else if type =? "small" then [("fontSize", "smaller")]
  else if type =? "sub" then
    [("fontSize", "smaller"); ("verticalAlign", "sub")]
  else if type =? "sup" then
    [("fontSize", "smaller"); ("verticalAlign", "super")]
  else [].

(** [child.type === "a" && child.props.href]: the string to append. *)
Definition hrefSuffix (type : string) (props : Props) : string :=
  if type =? "a" then
    match href props with
    | Some h => if h =? "" then "" else " " ++ h
    | None => ""
    end
  else "".

(** One iteration of the loop body.  The source replaces [children] by
    [["\n"]] (for ["br"]) or [[" "]] (for ["img"]) and recurses; the
    recursive call on such a one-string array runs the text branch once,
    which is what [textStep] is ([recursivelyConcatenate_eq] below states
    the source's own equation). *)
Fixpoint visit (child : Node) (style : StyleMap) (str : string)
         (subs : list string) {struct child} : string * list string :=
  match child with
  | Text t => textStep toCSSString t str style subs
  | Instance type props istyle children =>
      let nextStyle := objectAssign [] [Some style; Some istyle] in
      let '(str', subs') :=
        if type =? "br" then textStep toCSSString newline str nextStyle subs
        else if type =? "img" then textStep toCSSString " " str nextStyle subs
        else forEach (fun c => visit c nextStyle) children str subs in
      (str' ++ hrefSuffix type props, subs')
  end.

Definition recursivelyConcatenate (children : list Node) (str : string)
           (style : StyleMap) (subs : list string) : string * list string :=
  forEach (fun c => visit c style) children str subs.

End RevA.

(** ** Revision B: [src/index.js] lines 294-627 *)
Module RevB.

(** [prop.replace(/([a-z])([A-Z])/, "$1-$2")]: the pattern has no [g]
    flag, so only the leftmost match is replaced. *)
Fixpoint replaceFirst (s : string) : string :=
  match s with
  | EmptyString => EmptyString
  | String c s' =>
      match s' with
      | String d _ =>
          if isLower c && isUpper d then String c (String "-" s')
          else String c (replaceFirst s')
      | EmptyString => String c EmptyString
      end
  end.

Definition cssProp (prop : string) : string :=
  toLowerCase (replaceFirst prop).

Definition toCSSString (style : StyleMap) : string :=
  fold_left (fun cssString kv =>
               cssString ++ cssProp (fst kv) ++ ":" ++ snd kv ++ ";")
            style "".

Definition styleForType (type : string) : StyleMap :=
  if type =? "abbr" then
    [("textDecoration", "underline dotted"); ("fontStyle", "italics");
     ("fontWeight", "lighter")]
  else if (type =? "b") || (type =? "strong") then [("fontWeight", "bolder")]
  else if (type =? "del") || (type =? "s") then
    [("textDecoration", "line-through")]
  else if (type =? "em") || (type =? "i") then [("fontStyle", "italics")]
  else if (type =? "ins") || (type =? "u") then
    [("textDecoration", "underline")]
  else if type =? "mark" then
    [("backgroundColor", "yellow"); ("color", "black")]
  else if type =? "small" then [("fontSize", "smaller")]
  else if type =? "sub" then
    [("fontSize", "smaller"); ("verticalAlign", "sub")]
  else if type =? "sup" then
    [("fontSize", "smaller"); ("verticalAlign", "super")]
  else [].

Fixpoint visit (child : Node) (style : StyleMap) (str : string)
         (subs : list string) {struct child} : string * list string :=
  match child with
  | Text t => textStep toCSSString t str style subs
  | Instance type _ istyle children =>
      if type =? "br" then (str ++ newline, subs)
      else forEach
             (fun c => visit c (objectAssign [] [Some style; Some istyle]))
             children str subs
  end.

Definition recursivelyConcatenate (children : list Node) (str : string)
           (style : StyleMap) (subs : list string) : string * list string :=
  forEach (fun c => visit c style) children str subs.

End RevB.

(** ** Values, errors and the output target *)

(** [new Error(message)], or the [TypeError] the runtime raises when a
    property of [undefined] is read or a non-function is called. *)
Inductive Error : Type :=
| mkError (message : string)
| TypeError.

(** What a console method or [render] can be handed: [undefined], [null],
    a string, an element with a tag name as its type, an error object, or
    any other object, given by the value of its [type] property
    ([VUndefined] when it has none). *)
Inductive Value : Type :=
| VUndefined
| VNull
| VString (s : string)
| VElement (type : string) (props : Props) (children : list Value)
| VError (e : Error)
| VObject (typeProperty : Value).

Inductive Result (A : Type) : Type :=
| Returns (a : A)
| Throws (e : Error).
Arguments Returns {A} a.
Arguments Throws {A} e.

(** The calls an output target has received, oldest first. *)
Definition Call : Type := string * list Value.
Definition Log : Type := list Call.

(** An output target: which of its own properties hold a logging method.
    A logging method records its arguments and returns. *)
Definition Console : Type := string -> bool.

(** [context[name].apply(context, args)]. *)
Definition invoke (context : Console) (name : string) (args : list Value)
           (log : Log) : Result unit * Log :=
  if context name then (Returns tt, (log ++ [(name, args)])%list)
  else (Throws TypeError, log).

Definition includes (l : list string) (x : string) : bool :=
  existsb (String.eqb x) l.

Definition methods : list string :=
  ["debug"; "error"; "info"; "log"; "warn"; "group"; "groupCollapsed"; "trace"].

(** [isElement] of react-is. *)
Definition isElement (v : Value) : bool :=
  match v with
  | VElement _ _ _ => true
  | _ => false
  end.

(** ** The host configuration and the reconciler *)

Record Container : Type := mkContainer {
  context : Console;
  method : string;
  committed : bool
}.

(** The callbacks of the object handed to [ReactReconciler] that do
    something in either revision. *)
Record HostConfig : Type := mkHostConfig {
  createInstance : string -> Props -> Result Node;
  prepareForCommit : Container -> Result unit;
  replaceContainerChildren :
    Container -> list Node -> Log -> Result unit * Log;
  resetAfterCommit : Container -> Container
}.

(** Callbacks that both revisions write the same way. *)
Definition createTextInstance (text : string) : Node := Text text.

Definition createContainerChildSet : list Node := [].

Definition appendChildToContainerChildSet (childSet : list Node) (child : Node)
  : list Node :=
  (childSet ++ [child])%list.

Definition appendInitialChild (parentInstance child : Node) : Node :=
  match parentInstance with
  | Instance type props istyle children =>
      Instance type props istyle (children ++ [child])%list
  | Text t => Text t
  end.

(** What [ReactReconciler(hostConfig)] returns, as far as [render] uses it.
    [updateContainer] yields the outcome, the container as the callbacks
    left it, and the log. *)
Record Reconciler : Type := mkReconciler {
  createContainer : Container -> Container;
  updateContainer :
    Value -> Container -> Log -> Result unit * Container * Log
}.

Definition Engine : Type := HostConfig -> Reconciler.

Section Mount.
Variable H : HostConfig.

(** One commit of the engine: [prepareForCommit], then the new child set
    replaces the container's children, then [resetAfterCommit]; a
    callback that throws ends the commit. *)
Definition commit (c : Container) (newChildren : list Node) (log : Log)
  : Result unit * Container * Log :=
  match prepareForCommit H c with
  | Throws e => (Throws e, c, log)
  | Returns _ =>
      match replaceContainerChildren H c newChildren log with
      | (Throws e, log') => (Throws e, c, log')
      | (Returns _, log') => (Returns tt, resetAfterCommit H c, log')
      end
  end.

Definition appendAll (kids : Result (list Node)) (more : Result (list Node))
  : Result (list Node) :=
  match kids with
  | Throws e => Throws e
  | Returns ks =>
      match more with
      | Throws e => Throws e
      | Returns ms => Returns (ks ++ ms)%list
      end
  end.

(** The host instances of a renderable value: children complete before
    their parent is created and are then appended to it in order. *)
Fixpoint instantiate (v : Value) : Result (list Node) :=
  match v with
  | VUndefined | VNull => Returns []
  | VString s => Returns [createTextInstance s]
  | VElement type props children =>
      match fold_left (fun acc c => appendAll acc (instantiate c))
                      children (Returns []) with
      | Throws e => Throws e
      | Returns kids =>
          match createInstance H type props with
          | Throws e => Throws e
          | Returns inst => Returns [fold_left appendInitialChild kids inst]
          end
      end
  | VError _ | VObject _ =>
      Throws (mkError "Objects are not valid as a React child.")
  end.

Definition mountContainer (root : Value) (c : Container) (log : Log)
  : Result unit * Container * Log :=
  match instantiate root with
  | Throws e => (Throws e, c, log)
  | Returns insts =>
      commit c (fold_left appendChildToContainerChildSet insts
                          createContainerChildSet) log
  end.
End Mount.

(** Modelled from the spec: the reconciliation engine (the react-reconciler
    package, not part of this repository).  Section 6 of the specification
    has it build the host instances through the host configuration, deliver
    one commit per session and never touch a node after appending it; an
    error thrown by a callback comes out of [updateContainer]. *)
Definition mountEngine : Engine :=
  fun H => mkReconciler (fun info => info) (mountContainer H).

(** The arguments of [context[method].apply(context, [string].concat(subs))]. *)
Definition dispatchArgs (str : string) (subs : list string) : list Value :=
  VString str :: map VString subs.

Module RevAHost.
Import RevA.

Definition createInstance (type : string) (props : Props) : Result Node :=
  Returns (Instance type props
                    (objectAssign (styleForType type props) [style props])
                    []).

Definition replaceContainerChildren (container : Container)
           (newChildren : list Node) (log : Log) : Result unit * Log :=
  if committed container then (Returns tt, log)
  else
    let '(str, subs) := recursivelyConcatenate newChildren "" [] [] in
    invoke (context container) (method container) (dispatchArgs str subs) log.

Definition resetAfterCommit (containerInfo : Container) : Container :=
  mkContainer (context containerInfo) (method containerInfo) true.

Definition prepareForCommit (containerInfo : Container) : Result unit :=
  Returns tt.

Definition hostConfig : HostConfig :=
  mkHostConfig createInstance prepareForCommit replaceContainerChildren
               resetAfterCommit.

Section WithEngine.
Variable engine : Engine.

Definition reconciler : Reconciler := engine hostConfig.

Definition render (root : Value) (context : Console) (method : string)
           (log : Log) : Result unit * Log :=
  let container :=
    createContainer reconciler (mkContainer context method false) in
  let '(r, _, log') := updateContainer reconciler root container log in
  (r, log').

(** [overrides[name]], present when [name] is an own property of the
    context and one of [methods].  ([root] is [arguments[0]], which is
    [undefined] when there is no argument.) *)
Definition overrides (context : Console) (name : string)
  : option (list Value -> Log -> Result unit * Log) :=
  if context name && includes methods name then
    Some (fun arguments log =>
            let root := nth 0 arguments VUndefined in
            if Nat.eqb (length arguments) 1 && isElement root
            then render root context name log
            else invoke context name arguments log)
  else None.
End WithEngine.
End RevAHost.

Module RevBHost.
Import RevB.

Definition inlineElements : list string :=
  ["a"; "abbr"; "b"; "bdi"; "bdo"; "br"; "cite"; "code"; "data"; "dfn";
   "em"; "i"; "kbd"; "mark"; "q"; "rb"; "rp"; "rt"; "rtc"; "ruby"; "s";
   "samp"; "small"; "span"; "strong"; "sub"; "sup"; "time"; "u"; "var";
   "wbr"].

Definition createInstance (type : string) (props : Props) : Result Node :=
  if negb (includes inlineElements type) then
    Throws (mkError ("Invalid element: " ++ type
                     ++ " is not an inline element."))
  else
    Returns (Instance type noProps
                      (objectAssign (styleForType type) [style props])
                      []).

Definition replaceContainerChildren (container : Container)
           (newChildren : list Node) (log : Log) : Result unit * Log :=
  if committed container then (Returns tt, log)
  else
    let '(str, subs) := recursivelyConcatenate newChildren "" [] [] in
    invoke (context container) (method container) (dispatchArgs str subs) log.

Definition resetAfterCommit (containerInfo : Container) : Container :=
  mkContainer (context containerInfo) (method containerInfo) true.

Definition prepareForCommit (containerInfo : Container) : Result unit :=
  if committed containerInfo then
    Throws (mkError "Console has already committed this root.")
  else Returns tt.

Definition hostConfig : HostConfig :=
  mkHostConfig createInstance prepareForCommit replaceContainerChildren
               resetAfterCommit.

(** [root.type], read before [isElement] is applied to it: a [TypeError]
    on [undefined] and [null], the tag of an element, the [type] property
    of another object, [undefined] on a string or an error object. *)
Definition typeOf (root : Value) : Result Value :=
  match root with
  | VUndefined | VNull => Throws TypeError
  | VElement type _ _ => Returns (VString type)
  | VObject typeProperty => Returns typeProperty
  | VString _ | VError _ => Returns VUndefined
  end.

Section WithEngine.
Variable engine : Engine.

Definition reconciler : Reconciler := engine hostConfig.

Definition render (root : Value) (context : Console) (method : string)
           (log : Log) : Result unit * Log :=
  let container :=
    createContainer reconciler (mkContainer context method false) in
  match updateContainer reconciler root container log with
  | (Returns _, _, log') => (Returns tt, log')
  | (Throws e, _, log') => invoke context "error" [VError e] log'
  end.

Definition overrides (context : Console) (name : string)
  : option (list Value -> Log -> Result unit * Log) :=
  if context name && includes methods name then
    Some (fun arguments log =>
            let root := nth 0 arguments VUndefined in
            if Nat.eqb (length arguments) 1
            then render root context name log
            else
              match typeOf root with
              | Throws e => (Throws e, log)
              | Returns t =>
                  if isElement t then render root context name log
                  else invoke context name arguments log
              end)
  else None.
End WithEngine.
End RevBHost.

(** * Definitions used by the statements *)

(** A step is framed when it only appends to the format string and to
    [subs], and what it appends does not depend on what was there. *)
Definition framed (f : string -> list string -> string * list string) : Prop :=
  forall str subs,
    f str subs = (str ++ fst (f "" []), (subs ++ snd (f "" []))%list).

(** Sample inputs. *)
Definition brNode : Node := Instance "br" noProps [] [].

Definition googleProps : Props :=
  mkProps None (Some "https://google.com") JUndefined JUndefined JUndefined.

Definition kittenProps : Props :=
  mkProps None None (JNumber "180") (JNumber "150")
          (JString "http://placekitten.com/180/150").

(** ** Markers and style arguments *)

(** A marker starts at the head of [s]. *)
Definition isMarkerAt (s : string) : bool :=
  match s with
  | String a (String b _) => Ascii.eqb a "%" && Ascii.eqb b "c"
  | _ => false
  end.

(** The number of [%c] markers in a format string. *)
Fixpoint countMarkers (s : string) : nat :=
  match s with
  | EmptyString => 0
  | String _ s' => (if isMarkerAt s then 1 else 0) + countMarkers s'
  end.

(** The text before the first marker, and the text after each marker up to
    the next one, left to right. *)
Fixpoint splitMarkers (s : string) : string * list string :=
  match s with
  | EmptyString => ("", [])
  | String a s' =>
      let '(p, segs) := splitMarkers s' in
      if isMarkerAt s then ("", tail p :: segs) else (String a p, segs)
  end.

(** What flattening contributes, piece by piece: a styled text run (one
    marker, one style argument), the newline of a line break, or the target
    appended after an anchor. *)
Inductive Piece : Type :=
| Run (style : StyleMap) (text : string)
| Break
| Target (h : string).

Fixpoint formatOf (ps : list Piece) : string :=
  match ps with
  | [] => ""
  | Run _ t :: r => "%c" ++ t ++ formatOf r
  | Break :: r => newline ++ formatOf r
  | Target h :: r => " " ++ h ++ formatOf r
  end.

Fixpoint runsOf (ps : list Piece) : list (StyleMap * string) :=
  match ps with
  | [] => []
  | Run st t :: r => (st, t) :: runsOf r
  | _ :: r => runsOf r
  end.

Definition stylesOf (toCSS : StyleMap -> string) (ps : list Piece)
  : list string :=
  map (fun run => toCSS (fst run)) (runsOf ps).

(** The text of a piece holds no marker of its own. *)
Definition markerFree (p : Piece) : bool :=
  match p with
  | Run _ t => Nat.eqb (countMarkers t) 0
  | Break => true
  | Target h => Nat.eqb (countMarkers h) 0
  end.

Module RevAPieces.
Import RevA.

Definition targetOf (type : string) (props : Props) : list Piece :=
  if type =? "a" then
    match href props with
    | Some h => if h =? "" then [] else [Target h]
    | None => []
    end
  else [].

Fixpoint piecesOf (child : Node) (style : StyleMap) : list Piece :=
  match child with
  | Text t => [Run style t]
  | Instance type props istyle children =>
      let nextStyle := objectAssign [] [Some style; Some istyle] in
      ((if type =? "br" then [Run nextStyle newline]
        else if type =? "img" then [Run nextStyle " "]
        else flat_map (fun c => piecesOf c nextStyle) children)
         ++ targetOf type props)%list
  end.

Definition pieces (children : list Node) (style : StyleMap) : list Piece :=
  flat_map (fun c => piecesOf c style) children.
End RevAPieces.

Module RevBPieces.
Import RevB.

Fixpoint piecesOf (child : Node) (style : StyleMap) : list Piece :=
  match child with
  | Text t => [Run style t]
  | Instance type _ istyle children =>
      if type =? "br" then [Break]
      else flat_map
             (fun c => piecesOf c (objectAssign [] [Some style; Some istyle]))
             children
  end.

Definition pieces (children : list Node) (style : StyleMap) : list Piece :=
  flat_map (fun c => piecesOf c style) children.
End RevBPieces.

Definition helloTree : list Node :=
  [Instance "span" noProps []
     [Text "Hello, ";
      Instance "strong" noProps [("fontWeight", "bolder")] [Text "Chris"];
      Instance "br" noProps [] [];
      Text "!"]].

(** ** The name conversion of the specification *)

(** The conversion as the specification words it: a hyphen at every
    boundary between a lower-case and an upper-case letter, then the whole
    name in lower case. *)
Fixpoint specHyphenate (s : string) : string :=
  match s with
  | EmptyString => EmptyString
  | String c s' =>
      match s' with
      | String d _ =>
          if isLower c && isUpper d then String c (String "-" (specHyphenate s'))
          else String c (specHyphenate s')
      | EmptyString => String c EmptyString
      end
  end.

Definition specCssProp (prop : string) : string :=
  toLowerCase (specHyphenate prop).

Fixpoint joinAll (segments : list string) : string :=
  match segments with
  | [] => ""
  | s :: r => s ++ joinAll r
  end.

(** The [property:value;] segments of a style object, in iteration order. *)
Definition segmentsWith (cssProp : string -> string) (style : StyleMap)
  : list string :=
  map (fun kv => cssProp (fst kv) ++ ":" ++ snd kv ++ ";") style.

Definition specToCSSString (style : StyleMap) : string :=
  joinAll (segmentsWith specCssProp style).

(** Every upper-case letter of [s] comes right after a lower-case letter
    ([prevLower] tells whether the letter before [s] is one). *)
Fixpoint upperAfterLower (prevLower : bool) (s : string) : bool :=
  match s with
  | EmptyString => true
  | String c s' =>
      (if isUpper c then prevLower else true) && upperAfterLower (isLower c) s'
  end.

Definition camelCase (s : string) : bool := upperAfterLower false s.

(** The number of boundaries between a lower-case and an upper-case letter. *)
Fixpoint boundaries (s : string) : nat :=
  match s with
  | EmptyString => 0
  | String c s' =>
      match s' with
      | String d _ => (if isLower c && isUpper d then 1 else 0) + boundaries s'
      | EmptyString => 0
      end
  end.

Definition startsUpper (s : string) : bool :=
  match s with
  | String c _ => isUpper c
  | EmptyString => false
  end.

(** The style a leaf inherits under an outer ancestor with style [s1] and
    an inner one with style [s2]: what the two [Object.assign] calls on the
    way down build, starting from the empty style of the container. *)
Definition inherited2 (s1 s2 : StyleMap) : StyleMap :=
  objectAssign [] [Some (objectAssign [] [Some []; Some s1]); Some s2].

(** The tags whose children are visited. *)
Definition visitedA (type : string) : bool :=
  negb (type =? "br") && negb (type =? "img").

Definition visitedB (type : string) : bool := negb (type =? "br").

(** A console with the eight logging methods. *)
Definition stdConsole : Console := fun name => includes methods name.

Definition chrisElement : Value :=
  VElement "strong" noProps
    [VElement "em"
       (mkProps (Some [("color", "#21a0a0")]) None
                JUndefined JUndefined JUndefined)
       [VString "Chris"]].

(** ** Commits of one session *)

(** The engine signals readiness once per element of [signals], each time
    with a child set; the container is carried from one commit to the next. *)
Fixpoint commits (H : HostConfig) (c : Container) (signals : list (list Node))
         (log : Log) : Container * Log :=
  match signals with
  | [] => (c, log)
  | newChildren :: rest =>
      let '(_, c', log') := commit H c newChildren log in
      commits H c' rest log'
  end.

(** ** Views of a committed tree *)

(** The same tree with every instance style emptied. *)
Fixpoint eraseStyles (child : Node) : Node :=
  match child with
  | Text t => Text t
  | Instance type props _ children =>
      Instance type props [] (map eraseStyles children)
  end.

(** What a reader sees of a tree in revision A: the texts, a newline per
    line break, a space per image, the target after an anchor. *)
Fixpoint textContentA (child : Node) : string :=
  match child with
  | Text t => t
  | Instance type props _ children =>
      (if type =? "br" then newline
       else if type =? "img" then " "
       else joinAll (map textContentA children))
        ++ RevA.hrefSuffix type props
  end.

Fixpoint textContentB (child : Node) : string :=
  match child with
  | Text t => t
  | Instance type _ _ children =>
      if type =? "br" then newline
      else joinAll (map textContentB children)
  end.

(** A format string with its markers taken out. *)
Definition stripMarkers (s : string) : string :=
  fst (splitMarkers s) ++ joinAll (snd (splitMarkers s)).

Fixpoint plainOf (ps : list Piece) : string :=
  match ps with
  | [] => ""
  | Run _ t :: r => t ++ plainOf r
  | Break :: r => newline ++ plainOf r
  | Target h :: r => " " ++ h ++ plainOf r
  end.

(** No line break, no image and no anchor target anywhere in the tree. *)
Fixpoint plainNode (child : Node) : bool :=
  match child with
  | Text _ => true
  | Instance type props _ children =>
      negb (type =? "br") && negb (type =? "img")
      && (RevA.hrefSuffix type props =? "")
      && forallb plainNode children
  end.

(** The number of style arguments a tree asks for in revision A: one per
    text leaf, line break and image met on the way down. *)
Fixpoint slotsA (child : Node) : nat :=
  match child with
  | Text _ => 1
  | Instance type _ _ children =>
      if type =? "br" then 1
      else if type =? "img" then 1
      else list_sum (map slotsA children)
  end.

(** In revision B: one per text leaf outside line breaks. *)
Fixpoint slotsB (child : Node) : nat :=
  match child with
  | Text _ => 1
  | Instance type _ _ children =>
      if type =? "br" then 0 else list_sum (map slotsB children)
  end.

(** The style of an instance. *)
Definition styleOf (n : Node) : StyleMap :=
  match n with
  | Instance _ _ istyle _ => istyle
  | Text _ => []
  end.

(** The properties of [extra] that [base] does not have. *)
Definition newKeys (base extra : StyleMap) : list string :=
  filter (fun k => negb (includes (keys base) k)) (keys extra).

Fixpoint noUpper (s : string) : bool :=
  match s with
  | EmptyString => true
  | String c s' => negb (isUpper c) && noUpper s'
  end.

Fixpoint countUpper (s : string) : nat :=
  match s with
  | EmptyString => 0
  | String c s' => (if isUpper c then 1 else 0) + countUpper s'
  end.

Definition redMark : Props :=
  mkProps (Some [("color", "red"); ("fontWeight", "bold")]) None
          JUndefined JUndefined JUndefined.

(** ** Names within the reach of the model *)

Definition isDigit (c : ascii) : bool :=
  Nat.leb 48 (nat_of_ascii c) && Nat.leb (nat_of_ascii c) 57.

Definition startsWithDigit (k : string) : bool :=
  match k with
  | String c _ => isDigit c
  | EmptyString => false
  end.

(** No property name of the style starts with a digit: none is an array
    index, so [for]-[in] lists the properties in insertion order. *)
Definition plainKeys (o : StyleMap) : bool :=
  forallb (fun k => negb (startsWithDigit k)) (keys o).

(** Every character of the name is ASCII. *)
Fixpoint asciiName (s : string) : bool :=
  match s with
  | EmptyString => true
  | String c s' => Nat.ltb (nat_of_ascii c) 128 && asciiName s'
  end.

(** ** Renderable values *)






(** * Properties *)

(** Induction over committed trees, with the hypothesis on every child. *)
Lemma Node_forall_ind (P : Node -> Prop) :
  (forall t, P (Text t)) ->
  (forall ty p st ch, Forall P ch -> P (Instance ty p st ch)) ->
  forall n, P n.
Proof.
  intros HT HI.
  fix IH 1.
  intros [t | ty p st ch].
  - apply HT.
  - apply HI. induction ch as [| c ch IHch]; constructor.
    + apply IH.
    + exact IHch.
Qed.

(** ** Threading of the accumulators *)

Lemma string_app_nil_r (s : string) : s ++ "" = s.
Proof. induction s as [| c s IH]; simpl; [reflexivity | now rewrite IH]. Qed.

Lemma string_app_assoc (a b c : string) : (a ++ b) ++ c = a ++ b ++ c.
Proof. induction a as [| x a IH]; simpl; [reflexivity | now rewrite IH]. Qed.

Lemma forEach_app body xs ys str subs :
  forEach body (xs ++ ys)%list str subs =
  forEach body ys (fst (forEach body xs str subs))
          (snd (forEach body xs str subs)).
Proof.
  revert str subs. induction xs as [| x xs IH]; intros str subs; simpl.
  - reflexivity.
  - destruct (body x str subs) as [s u]. apply IH.
Qed.

Lemma forEach_framed body children :
  Forall (fun c => framed (body c)) children ->
  framed (forEach body children).
Proof.
  induction 1 as [| c cs Hc _ IH]; intros str subs; simpl.
  - now rewrite string_app_nil_r, app_nil_r.
  - rewrite (Hc str subs), (Hc "" []). simpl.
    rewrite IH. rewrite (IH (fst (body c "" [])) (snd (body c "" []))).
    simpl. now rewrite string_app_assoc, app_assoc.
Qed.

Lemma textStep_framed toCSS t style :
  framed (fun str subs => textStep toCSS t str style subs).
Proof. intros str subs. reflexivity. Qed.

Lemma framed_suffix f (suffix : string) :
  framed f ->
  framed (fun str subs => let '(s, u) := f str subs in (s ++ suffix, u)).
Proof.
  intros Hf str subs. rewrite (Hf str subs).
  destruct (f "" []) as [s u]. simpl. now rewrite string_app_assoc.
Qed.

Lemma RevA_visit_framed child : forall style, framed (RevA.visit child style).
Proof.
  induction child as [t | ty p st ch IH] using Node_forall_ind; intros style.
  - apply textStep_framed.
  - cbn [RevA.visit].
    apply (framed_suffix
             (fun str subs =>
                if ty =? "br" then _ else if ty =? "img" then _ else _)).
    destruct (ty =? "br"); [apply textStep_framed |].
    destruct (ty =? "img"); [apply textStep_framed |].
    apply forEach_framed.
    eapply Forall_impl; [| exact IH]. intros c Hc. apply Hc.
Qed.

Lemma RevB_visit_framed child : forall style, framed (RevB.visit child style).
Proof.
  induction child as [t | ty p st ch IH] using Node_forall_ind; intros style.
  - apply textStep_framed.
  - cbn [RevB.visit]. destruct (ty =? "br").
    + intros str subs. simpl. now rewrite app_nil_r.
    + apply forEach_framed.
      eapply Forall_impl; [| exact IH]. intros c Hc. apply Hc.
Qed.

Lemma RevA_framed children style :
  framed (fun str subs => RevA.recursivelyConcatenate children str style subs).
Proof.
  apply forEach_framed, Forall_forall. intros c _. apply RevA_visit_framed.
Qed.

Lemma RevB_framed children style :
  framed (fun str subs => RevB.recursivelyConcatenate children str style subs).
Proof.
  apply forEach_framed, Forall_forall. intros c _. apply RevB_visit_framed.
Qed.

(** The source's own recursive equation for an element child, with the
    [children] array replaced for ["br"] and ["img"] and the recursive call
    made on it. *)
Lemma RevA_recursivelyConcatenate_eq type props istyle children rest
      str style subs :
  RevA.recursivelyConcatenate (Instance type props istyle children :: rest)
                              str style subs =
  let nextStyle := objectAssign [] [Some style; Some istyle] in
  let children' :=
    if type =? "br" then [Text newline]
    else if type =? "img" then [Text " "]
    else children in
  let '(str', subs') :=
    RevA.recursivelyConcatenate children' str nextStyle subs in
  RevA.recursivelyConcatenate rest (str' ++ RevA.hrefSuffix type props)
                              style subs'.
Proof.
  unfold RevA.recursivelyConcatenate. cbn [forEach RevA.visit].
  destruct (type =? "br"); [reflexivity |].
  destruct (type =? "img"); [reflexivity |].
  cbv zeta.
  destruct (forEach _ children str subs) as [s u]. reflexivity.
Qed.

Lemma RevB_recursivelyConcatenate_eq type props istyle children rest
      str style subs :
  RevB.recursivelyConcatenate (Instance type props istyle children :: rest)
                              str style subs =
  let '(str', subs') :=
    if type =? "br" then (str ++ newline, subs)
    else RevB.recursivelyConcatenate
           children str (objectAssign [] [Some style; Some istyle]) subs in
  RevB.recursivelyConcatenate rest str' style subs'.
Proof.
  unfold RevB.recursivelyConcatenate. cbn [forEach RevB.visit].
  destruct (type =? "br"); reflexivity.
Qed.

(** C10: flattening is a homomorphism over the concatenation of child
    lists, in both revisions: the format string and the style arguments of
    [xs ++ ys] are those of [xs] followed by those of [ys], and the empty
    child list gives the empty string and no style argument. *)
Theorem C10_concat_homomorphism :
  (forall xs ys s,
      RevA.recursivelyConcatenate (xs ++ ys)%list "" s [] =
      (fst (RevA.recursivelyConcatenate xs "" s [])
         ++ fst (RevA.recursivelyConcatenate ys "" s []),
       (snd (RevA.recursivelyConcatenate xs "" s [])
          ++ snd (RevA.recursivelyConcatenate ys "" s []))%list)) /\
  (forall xs ys s,
      RevB.recursivelyConcatenate (xs ++ ys)%list "" s [] =
      (fst (RevB.recursivelyConcatenate xs "" s [])
         ++ fst (RevB.recursivelyConcatenate ys "" s []),
       (snd (RevB.recursivelyConcatenate xs "" s [])
          ++ snd (RevB.recursivelyConcatenate ys "" s []))%list)) /\
  (forall s, RevA.recursivelyConcatenate [] "" s [] = ("", [])) /\
  (forall s, RevB.recursivelyConcatenate [] "" s [] = ("", [])).
Proof.
  repeat split; try reflexivity; intros xs ys s.
  - unfold RevA.recursivelyConcatenate at 1. rewrite forEach_app.
    exact (RevA_framed ys s _ _).
  - unfold RevB.recursivelyConcatenate at 1. rewrite forEach_app.
    exact (RevB_framed ys s _ _).
Qed.

(** ** Line breaks *)

(** C2, as stated, fails in revision A: a line break is flattened as the
    one-string child list [["\n"]], so it adds a marker and a newline and
    pushes a style argument. *)
Lemma C2_br_pushes_style_in_RevA :
  RevA.recursivelyConcatenate [brNode] "" [] [] = ("%c" ++ newline, [""]) /\
  snd (RevA.recursivelyConcatenate [brNode] "" [] []) <> [].
Proof. split; [reflexivity | discriminate]. Qed.

(** C2, amended: a line-break element never has its children visited.  In
    revision B it appends one newline and pushes nothing; in revision A it
    appends a marker followed by one newline and pushes the serialised
    style merged from the inherited style and its own. *)
Theorem C2_br_flattening :
  (forall props istyle children str style subs,
      RevB.recursivelyConcatenate [Instance "br" props istyle children]
                                  str style subs =
      (str ++ newline, subs)) /\
  (forall props istyle children str style subs,
      RevA.recursivelyConcatenate [Instance "br" props istyle children]
                                  str style subs =
      (str ++ "%c" ++ newline,
       (subs ++ [RevA.toCSSString
                   (objectAssign [] [Some style; Some istyle])])%list)).
Proof.
  split; intros props istyle children str style subs.
  - reflexivity.
  - unfold RevA.recursivelyConcatenate. cbn.
    now rewrite string_app_nil_r.
Qed.

(** ** Construction *)

(** C3, as stated, fails in revision A, which validates nothing: a ["div"]
    is outside the allow-list of revision B and is constructed all the same. *)
Lemma C3_div_constructed_in_RevA :
  includes RevBHost.inlineElements "div" = false /\
  RevAHost.createInstance "div" noProps = Returns (Instance "div" noProps [] []).
Proof. split; reflexivity. Qed.

(** C3, amended: in revision B a tag outside [inlineElements] makes
    [createInstance] throw the error with the message
    "Invalid element: <tag> is not an inline element." and a tag inside it
    never fails; in revision A, where there is no allow-list, construction
    never fails for any tag. *)
Theorem C3_createInstance_validation :
  (forall type props,
      includes RevBHost.inlineElements type = false ->
      RevBHost.createInstance type props =
      Throws (mkError ("Invalid element: " ++ type
                       ++ " is not an inline element."))) /\
  (forall type props,
      includes RevBHost.inlineElements type = true ->
      exists inst, RevBHost.createInstance type props = Returns inst) /\
  (forall type props,
      exists inst, RevAHost.createInstance type props = Returns inst).
Proof.
  repeat split.
  - intros type props Hout. unfold RevBHost.createInstance.
    now rewrite Hout.
  - intros type props Hin. unfold RevBHost.createInstance.
    rewrite Hin. eexists. reflexivity.
  - intros type props. eexists. reflexivity.
Qed.

Lemma C3_createInstance_validation_witness :
  RevBHost.createInstance "div" noProps =
  Throws (mkError "Invalid element: div is not an inline element.") /\
  (exists inst, RevBHost.createInstance "span" noProps = Returns inst).
Proof.
  split.
  - exact (proj1 C3_createInstance_validation "div" noProps eq_refl).
  - exact (proj1 (proj2 C3_createInstance_validation) "span" noProps eq_refl).
Defined.

(** ** Anchors *)

(** C5, as stated, fails in revision B, which has no anchor case: the
    instance built for [<a href="https://google.com">Google</a>] flattens to
    the text run alone. *)
Lemma C5_href_not_appended_in_RevB :
  exists inst,
    RevBHost.createInstance "a" googleProps = Returns inst /\
    fst (RevB.recursivelyConcatenate
           [appendInitialChild inst (Text "Google")] "" [] []) = "%cGoogle" /\
    fst (RevB.recursivelyConcatenate
           [appendInitialChild inst (Text "Google")] "" [] [])
    <> "%cGoogle https://google.com".
Proof.
  eexists. split; [reflexivity |]. split; [reflexivity | discriminate].
Qed.

(** C5, amended: in revision A an anchor whose [href] is a non-empty string
    is flattened by visiting its children under the merged style and then
    appending a space and the [href] to the format string, the style
    arguments being those of the children alone; an anchor with an empty or
    absent [href] appends nothing.  Revision B treats an anchor as any other
    element. *)
Theorem C5_anchor_href :
  (forall props istyle children str style subs h,
      href props = Some h -> h <> "" ->
      RevA.recursivelyConcatenate [Instance "a" props istyle children]
                                  str style subs =
      (fst (RevA.recursivelyConcatenate
              children str (objectAssign [] [Some style; Some istyle]) subs)
         ++ " " ++ h,
       snd (RevA.recursivelyConcatenate
              children str (objectAssign [] [Some style; Some istyle]) subs))) /\
  (forall props istyle children str style subs,
      href props = None \/ href props = Some "" ->
      RevA.recursivelyConcatenate [Instance "a" props istyle children]
                                  str style subs =
      RevA.recursivelyConcatenate
        children str (objectAssign [] [Some style; Some istyle]) subs) /\
  (forall props istyle children str style subs,
      RevB.recursivelyConcatenate [Instance "a" props istyle children]
                                  str style subs =
      RevB.recursivelyConcatenate
        children str (objectAssign [] [Some style; Some istyle]) subs).
Proof.
  repeat split.
  - intros props istyle children str style subs h Hh Hne.
    unfold RevA.recursivelyConcatenate. cbn [forEach RevA.visit].
    change ("a" =? "br") with false. change ("a" =? "img") with false.
    cbv iota.
    destruct (forEach _ children str subs) as [s u]. cbn [fst snd].
    unfold RevA.hrefSuffix. change ("a" =? "a") with true. cbv iota.
    rewrite Hh. destruct (h =? "") eqn:E.
    + apply String.eqb_eq in E. contradiction.
    + reflexivity.
  - intros props istyle children str style subs Hh.
    unfold RevA.recursivelyConcatenate. cbn [forEach RevA.visit].
    change ("a" =? "br") with false. change ("a" =? "img") with false.
    cbv iota.
    destruct (forEach _ children str subs) as [s u].
    unfold RevA.hrefSuffix. change ("a" =? "a") with true. cbv iota.
    destruct Hh as [Hh | Hh]; rewrite Hh; cbn; now rewrite string_app_nil_r.
  - intros props istyle children str style subs.
    unfold RevB.recursivelyConcatenate. cbn [forEach RevB.visit].
    change ("a" =? "br") with false. cbv iota.
    destruct (forEach _ children str subs) as [s u]. reflexivity.
Qed.

Lemma C5_anchor_href_witness :
  RevA.recursivelyConcatenate
    [Instance "a" googleProps [("color", "blue")] [Text "Google"]] "" [] [] =
  ("%cGoogle https://google.com", ["color:blue;"]) /\
  RevA.recursivelyConcatenate
    [Instance "a" noProps [("color", "blue")] [Text "Google"]] "" [] [] =
  ("%cGoogle", ["color:blue;"]).
Proof.
  split.
  - refine (eq_trans
              (proj1 C5_anchor_href googleProps [("color", "blue")]
                     [Text "Google"] "" [] [] "https://google.com"
                     eq_refl _) _).
    + discriminate.
    + reflexivity.
  - refine (eq_trans
              (proj1 (proj2 C5_anchor_href) noProps [("color", "blue")]
                     [Text "Google"] "" [] [] (or_introl eq_refl)) _).
    reflexivity.
Defined.

(** ** Markers and style arguments *)

Lemma formatOf_app ps qs : formatOf (ps ++ qs) = formatOf ps ++ formatOf qs.
Proof.
  induction ps as [| [st t | | h] ps IH]; cbn [formatOf app].
  - reflexivity.
  - rewrite IH. cbn. now rewrite string_app_assoc.
  - rewrite IH. reflexivity.
  - rewrite IH. cbn. now rewrite string_app_assoc.
Qed.

Lemma runsOf_app ps qs : runsOf (ps ++ qs) = (runsOf ps ++ runsOf qs)%list.
Proof.
  induction ps as [| [st t | | h] ps IH]; cbn [runsOf app];
    now rewrite ?IH.
Qed.

Lemma stylesOf_app toCSS ps qs :
  stylesOf toCSS (ps ++ qs) = (stylesOf toCSS ps ++ stylesOf toCSS qs)%list.
Proof. unfold stylesOf. now rewrite runsOf_app, map_app. Qed.

(** A body that emits the pieces [P c] for each child makes the loop emit
    the pieces of all the children in order. *)
Lemma forEach_pieces toCSS body (P : Node -> list Piece) children :
  Forall (fun c => framed (body c)) children ->
  Forall (fun c => body c "" [] = (formatOf (P c), stylesOf toCSS (P c)))
         children ->
  forEach body children "" [] =
  (formatOf (flat_map P children), stylesOf toCSS (flat_map P children)).
Proof.
  induction children as [| c cs IH]; intros Hf Hp.
  - reflexivity.
  - inversion Hf as [| ? ? Hfc Hfcs]; subst.
    inversion Hp as [| ? ? Hpc Hpcs]; subst.
    cbn [forEach flat_map]. rewrite Hpc.
    rewrite (forEach_framed body cs Hfcs). rewrite (IH Hfcs Hpcs).
    cbn [fst snd]. now rewrite formatOf_app, stylesOf_app.
Qed.

Lemma RevA_targetOf_format type props :
  formatOf (RevAPieces.targetOf type props) = RevA.hrefSuffix type props.
Proof.
  unfold RevAPieces.targetOf, RevA.hrefSuffix.
  destruct (type =? "a"); [| reflexivity].
  destruct (href props) as [h |]; [| reflexivity].
  destruct (h =? ""); [reflexivity |].
  cbn. now rewrite string_app_nil_r.
Qed.

Lemma RevA_targetOf_runs type props :
  runsOf (RevAPieces.targetOf type props) = [].
Proof.
  unfold RevAPieces.targetOf.
  destruct (type =? "a"); [| reflexivity].
  destruct (href props) as [h |]; [| reflexivity].
  destruct (h =? ""); reflexivity.
Qed.

Lemma RevA_visit_pieces child :
  forall style,
    RevA.visit child style "" [] =
    (formatOf (RevAPieces.piecesOf child style),
     stylesOf RevA.toCSSString (RevAPieces.piecesOf child style)).
Proof.
  induction child as [t | ty p st ch IH] using Node_forall_ind; intros style.
  - cbn. now rewrite string_app_nil_r.
  - cbn [RevA.visit RevAPieces.piecesOf].
    rewrite formatOf_app, stylesOf_app, RevA_targetOf_format.
    unfold stylesOf at 2. rewrite RevA_targetOf_runs. cbn [map].
    rewrite app_nil_r.
    destruct (ty =? "br"); [reflexivity |].
    destruct (ty =? "img"); [reflexivity |].
    rewrite (forEach_pieces RevA.toCSSString _
               (fun c => RevAPieces.piecesOf c
                           (objectAssign [] [Some style; Some st]))).
    + reflexivity.
    + apply Forall_forall. intros c _. apply RevA_visit_framed.
    + eapply Forall_impl; [| exact IH]. intros c Hc. apply Hc.
Qed.

Lemma RevB_visit_pieces child :
  forall style,
    RevB.visit child style "" [] =
    (formatOf (RevBPieces.piecesOf child style),
     stylesOf RevB.toCSSString (RevBPieces.piecesOf child style)).
Proof.
  induction child as [t | ty p st ch IH] using Node_forall_ind; intros style.
  - cbn. now rewrite string_app_nil_r.
  - cbn [RevB.visit RevBPieces.piecesOf].
    destruct (ty =? "br"); [reflexivity |].
    apply forEach_pieces.
    + apply Forall_forall. intros c _. apply RevB_visit_framed.
    + eapply Forall_impl; [| exact IH]. intros c Hc. apply Hc.
Qed.

Lemma RevA_pieces children style :
  RevA.recursivelyConcatenate children "" style [] =
  (formatOf (RevAPieces.pieces children style),
   stylesOf RevA.toCSSString (RevAPieces.pieces children style)).
Proof.
  apply forEach_pieces; apply Forall_forall; intros c _.
  - apply RevA_visit_framed.
  - apply RevA_visit_pieces.
Qed.

Lemma RevB_pieces children style :
  RevB.recursivelyConcatenate children "" style [] =
  (formatOf (RevBPieces.pieces children style),
   stylesOf RevB.toCSSString (RevBPieces.pieces children style)).
Proof.
  apply forEach_pieces; apply Forall_forall; intros c _.
  - apply RevB_visit_framed.
  - apply RevB_visit_pieces.
Qed.

Lemma formatOf_not_c ps : startsWithChar "c" (formatOf ps) = false.
Proof. destruct ps as [| [st t | | h] ps]; reflexivity. Qed.

Lemma isMarkerAt_app a t b :
  startsWithChar "c" b = false ->
  isMarkerAt (String a (t ++ b)) = isMarkerAt (String a t).
Proof.
  intros Hb. destruct t as [| x t]; [| reflexivity].
  destruct b as [| y b]; [reflexivity |].
  unfold startsWithChar in Hb. rewrite Ascii.eqb_sym in Hb.
  change (String a ("" ++ String y b)) with (String a (String y b)).
  unfold isMarkerAt. rewrite Hb. apply andb_false_r.
Qed.

Lemma countMarkers_app t b :
  startsWithChar "c" b = false ->
  countMarkers (t ++ b) = countMarkers t + countMarkers b.
Proof.
  intros Hb. induction t as [| a t IH]; [reflexivity |].
  change (String a t ++ b) with (String a (t ++ b)).
  cbn [countMarkers]. rewrite (isMarkerAt_app a t b Hb), IH. lia.
Qed.

Lemma splitMarkers_app_free t b :
  countMarkers t = 0 ->
  startsWithChar "c" b = false ->
  splitMarkers (t ++ b) = (t ++ fst (splitMarkers b), snd (splitMarkers b)).
Proof.
  intros Ht Hb. induction t as [| a t IH].
  - cbn. now destruct (splitMarkers b).
  - change (String a t ++ b) with (String a (t ++ b)).
    cbn [countMarkers] in Ht.
    cbn [splitMarkers]. rewrite (isMarkerAt_app a t b Hb).
    destruct (isMarkerAt (String a t)); [discriminate |].
    rewrite IH by lia. reflexivity.
Qed.

Lemma isMarkerAt_c r : isMarkerAt (String "c" r) = false.
Proof. now destruct r. Qed.

Lemma splitMarkers_marker r :
  splitMarkers ("%c" ++ r) =
  ("", fst (splitMarkers r) :: snd (splitMarkers r)).
Proof.
  change ("%c" ++ r) with (String "%" (String "c" r)).
  cbn [splitMarkers]. rewrite isMarkerAt_c.
  destruct (splitMarkers r) as [p segs]. reflexivity.
Qed.

Lemma countMarkers_marker r : countMarkers ("%c" ++ r) = S (countMarkers r).
Proof.
  change ("%c" ++ r) with (String "%" (String "c" r)).
  cbn [countMarkers]. now rewrite isMarkerAt_c.
Qed.

Lemma prefix_app t p : String.prefix t (t ++ p) = true.
Proof.
  induction t as [| a t IH]; cbn.
  - now destruct p.
  - destruct (ascii_dec a a) as [_ | Hne]; [exact IH | now elim Hne].
Qed.

(** In a sequence of pieces whose texts hold no marker of their own, the
    markers of the format string are the runs: as many, and the text after
    the i-th marker starts with the text of the i-th run. *)
Lemma pieces_markers ps :
  forallb markerFree ps = true ->
  countMarkers (formatOf ps) = length (runsOf ps) /\
  Forall2 (fun seg run => String.prefix (snd run) seg = true)
          (snd (splitMarkers (formatOf ps))) (runsOf ps).
Proof.
  induction ps as [| p ps IH]; intros Hfree.
  - split; [reflexivity | constructor].
  - cbn [forallb] in Hfree. apply andb_true_iff in Hfree as [Hp Hps].
    destruct (IH Hps) as [IHc IHs]. clear IH.
    pose proof (formatOf_not_c ps) as Hc.
    destruct p as [st t | | h]; cbn [markerFree] in Hp;
      cbn [formatOf runsOf length].
    + apply Nat.eqb_eq in Hp. split.
      * rewrite countMarkers_marker, (countMarkers_app _ _ Hc). lia.
      * rewrite splitMarkers_marker, (splitMarkers_app_free _ _ Hp Hc).
        cbn [fst snd]. constructor; [apply prefix_app | exact IHs].
    + split.
      * rewrite (countMarkers_app _ _ Hc). exact IHc.
      * rewrite (splitMarkers_app_free newline _ eq_refl Hc). exact IHs.
    + apply Nat.eqb_eq in Hp.
      assert (Hh : countMarkers (" " ++ h) = 0) by (destruct h; exact Hp).
      rewrite <- string_app_assoc. split.
      * rewrite (countMarkers_app _ _ Hc). lia.
      * rewrite (splitMarkers_app_free _ _ Hh Hc). exact IHs.
Qed.

(** C1, as stated, fails when a text leaf itself holds the two characters
    of a marker, since nothing is escaped: one style argument, two markers. *)
Lemma C1_marker_inside_text :
  RevA.recursivelyConcatenate [Text "%c"] "" [] [] = ("%c%c", [""]) /\
  RevB.recursivelyConcatenate [Text "%c"] "" [] [] = ("%c%c", [""]) /\
  countMarkers "%c%c" <> length [""].
Proof. repeat split; discriminate. Qed.

(** C1, amended: in both revisions the flattener returns the format string
    and style arguments of the sequence of pieces of the tree, one style
    argument per text run, in order.  When no text run and no appended
    anchor target holds a marker of its own, the format string has exactly
    as many markers as there are style arguments, and the text after the
    i-th marker starts with the text of the run whose inherited style is
    the i-th style argument. *)
Theorem C1_markers_match_styles :
  (forall children style,
      forallb markerFree (RevAPieces.pieces children style) = true ->
      let r := RevA.recursivelyConcatenate children "" style [] in
      let runs := runsOf (RevAPieces.pieces children style) in
      countMarkers (fst r) = length (snd r) /\
      snd r = map (fun run => RevA.toCSSString (fst run)) runs /\
      Forall2 (fun seg run => String.prefix (snd run) seg = true)
              (snd (splitMarkers (fst r))) runs) /\
  (forall children style,
      forallb markerFree (RevBPieces.pieces children style) = true ->
      let r := RevB.recursivelyConcatenate children "" style [] in
      let runs := runsOf (RevBPieces.pieces children style) in
      countMarkers (fst r) = length (snd r) /\
      snd r = map (fun run => RevB.toCSSString (fst run)) runs /\
      Forall2 (fun seg run => String.prefix (snd run) seg = true)
              (snd (splitMarkers (fst r))) runs).
Proof.
  split; intros children style Hfree r runs; subst r runs.
  - rewrite RevA_pieces. cbn [fst snd].
    destruct (pieces_markers _ Hfree) as [Hc Hs].
    repeat split; [| exact Hs].
    unfold stylesOf. now rewrite length_map.
  - rewrite RevB_pieces. cbn [fst snd].
    destruct (pieces_markers _ Hfree) as [Hc Hs].
    repeat split; [| exact Hs].
    unfold stylesOf. now rewrite length_map.
Qed.

Lemma C1_markers_match_styles_witness :
  (countMarkers (fst (RevA.recursivelyConcatenate helloTree "" [] [])) =
   length (snd (RevA.recursivelyConcatenate helloTree "" [] [])) /\
   snd (RevA.recursivelyConcatenate helloTree "" [] []) =
   [""; "font-weight:bolder;"; ""; ""]) /\
  (countMarkers (fst (RevB.recursivelyConcatenate helloTree "" [] [])) =
   length (snd (RevB.recursivelyConcatenate helloTree "" [] [])) /\
   snd (RevB.recursivelyConcatenate helloTree "" [] []) =
   [""; "font-weight:bolder;"; ""]).
Proof.
  split.
  - destruct (proj1 C1_markers_match_styles helloTree [] eq_refl)
      as [Hc [Hs _]].
    split; [exact Hc | exact Hs].
  - destruct (proj2 C1_markers_match_styles helloTree [] eq_refl)
      as [Hc [Hs _]].
    split; [exact Hc | exact Hs].
Defined.

(** ** Style serialisation *)

Lemma fold_left_segments (f : string * string -> string) style acc :
  fold_left (fun cssString kv => cssString ++ f kv) style acc =
  acc ++ joinAll (map f style).
Proof.
  revert acc. induction style as [| kv style IH]; intros acc; cbn.
  - now rewrite string_app_nil_r.
  - rewrite IH. now rewrite string_app_assoc.
Qed.

Lemma RevA_toCSSString_segments style :
  RevA.toCSSString style = joinAll (segmentsWith RevA.cssProp style).
Proof. unfold RevA.toCSSString. now rewrite fold_left_segments. Qed.

Lemma RevB_toCSSString_segments style :
  RevB.toCSSString style = joinAll (segmentsWith RevB.cssProp style).
Proof. unfold RevB.toCSSString. now rewrite fold_left_segments. Qed.

Lemma replaceUpper_spec s :
  forall prevLower,
    upperAfterLower prevLower s = true ->
    RevA.replaceUpper s =
    (if startsUpper s then "-" else "") ++ specHyphenate s.
Proof.
  induction s as [| c s IH]; intros prevLower Hs; [reflexivity |].
  cbn [upperAfterLower] in Hs. apply andb_true_iff in Hs as [_ Hs].
  specialize (IH _ Hs).
  cbn [RevA.replaceUpper startsUpper specHyphenate]. rewrite IH.
  destruct s as [| d s].
  - destruct (isUpper c); reflexivity.
  - cbn [startsUpper]. cbn [upperAfterLower] in Hs.
    destruct (isUpper d) eqn:Ed.
    + apply andb_true_iff in Hs as [Hc _]. rewrite Hc.
      destruct (isUpper c); reflexivity.
    + rewrite andb_false_r. destruct (isUpper c); reflexivity.
Qed.

Lemma RevA_cssProp_camelCase prop :
  camelCase prop = true -> RevA.cssProp prop = specCssProp prop.
Proof.
  intros Hc. unfold RevA.cssProp, specCssProp.
  rewrite (replaceUpper_spec prop false Hc).
  destruct prop as [| c prop]; [reflexivity |].
  unfold camelCase in Hc. cbn [upperAfterLower] in Hc. cbn [startsUpper].
  destruct (isUpper c); [discriminate | reflexivity].
Qed.

Lemma specHyphenate_no_boundary s : boundaries s = 0 -> specHyphenate s = s.
Proof.
  induction s as [| c s IH]; intros Hb; [reflexivity |].
  cbn [boundaries specHyphenate] in *. destruct s as [| d s]; [reflexivity |].
  destruct (isLower c && isUpper d); [discriminate |].
  now rewrite IH.
Qed.

Lemma replaceFirst_spec s : boundaries s <= 1 -> RevB.replaceFirst s = specHyphenate s.
Proof.
  induction s as [| c s IH]; intros Hb; [reflexivity |].
  cbn [boundaries RevB.replaceFirst specHyphenate] in *.
  destruct s as [| d s]; [reflexivity |].
  destruct (isLower c && isUpper d).
  - rewrite specHyphenate_no_boundary by lia. reflexivity.
  - now rewrite IH.
Qed.

Lemma segmentsWith_ext f g (ok : string -> bool) style :
  (forall prop, ok prop = true -> f prop = g prop) ->
  forallb (fun kv => ok (fst kv)) style = true ->
  segmentsWith f style = segmentsWith g style.
Proof.
  intros Hfg. induction style as [| kv style IH]; intros Hok; [reflexivity |].
  cbn [forallb] in Hok. apply andb_true_iff in Hok as [Hkv Hrest].
  cbn [segmentsWith map]. rewrite (Hfg _ Hkv). f_equal. now apply IH.
Qed.

(** A name with an upper-case letter that follows no lower-case letter:
    revision A puts a hyphen before it, the rule the specification
    prefers. *)
Lemma vendor_prefix_name :
  RevA.toCSSString [("MozAppearance", "none")] = "-moz-appearance:none;".
Proof. reflexivity. Qed.

(** In both revisions [toCSSString] is the concatenation, in iteration
    order, of the segments [property:value;] under the revision's name
    conversion.  Revision A puts a hyphen before every upper-case letter
    and lower-cases the name, which is the boundary rule of the
    specification whenever every upper-case letter of every name follows a
    lower-case letter.  Revision B agrees with the boundary rule on names
    with at most one boundary. *)
Lemma toCSSString_boundary_rule :
  (forall style,
      RevA.toCSSString style = joinAll (segmentsWith RevA.cssProp style)) /\
  (forall style,
      RevB.toCSSString style = joinAll (segmentsWith RevB.cssProp style)) /\
  (forall prop,
      RevA.cssProp prop = toLowerCase (RevA.replaceUpper prop)) /\
  (forall style,
      forallb (fun kv => camelCase (fst kv)) style = true ->
      RevA.toCSSString style = specToCSSString style) /\
  (forall style,
      forallb (fun kv => Nat.leb (boundaries (fst kv)) 1) style = true ->
      RevB.toCSSString style = specToCSSString style).
Proof.
  repeat split.
  - apply RevA_toCSSString_segments.
  - apply RevB_toCSSString_segments.
  - intros style Hok. rewrite RevA_toCSSString_segments.
    unfold specToCSSString. f_equal.
    exact (segmentsWith_ext _ _ camelCase style RevA_cssProp_camelCase Hok).
  - intros style Hok. rewrite RevB_toCSSString_segments.
    unfold specToCSSString. f_equal.
    apply (segmentsWith_ext _ _ (fun p => Nat.leb (boundaries p) 1) style);
      [| exact Hok].
    intros prop Hp. apply Nat.leb_le in Hp.
    unfold RevB.cssProp, specCssProp. now rewrite replaceFirst_spec.
Qed.

(** C9 in revision B at [{borderTopWidth: "1px"}], a camel-case name with
    two boundaries: the pattern of line 609 has no [g] flag, so only the
    first boundary gets its hyphen, where the claim and revision A give
    [border-top-width]. *)
Theorem C9_RevB_hyphenates_first_boundary_only :
  camelCase "borderTopWidth" = true /\
  boundaries "borderTopWidth" = 2 /\
  RevB.toCSSString [("borderTopWidth", "1px")] = "border-topwidth:1px;" /\
  specToCSSString [("borderTopWidth", "1px")] = "border-top-width:1px;" /\
  RevA.toCSSString [("borderTopWidth", "1px")] = "border-top-width:1px;" /\
  RevB.toCSSString [("borderTopWidth", "1px")]
  <> specToCSSString [("borderTopWidth", "1px")].
Proof.
  repeat split; try reflexivity. discriminate.
Qed.

(** ** Style inheritance *)

Lemma lookup_setProp k k' v o :
  lookup k (setProp k' v o) = if k' =? k then Some v else lookup k o.
Proof.
  induction o as [| [k0 v0] o IH]; cbn.
  - reflexivity.
  - destruct (k0 =? k') eqn:E0; cbn.
    + apply String.eqb_eq in E0. subst k0. now destruct (k' =? k).
    + rewrite IH. destruct (k0 =? k) eqn:E1; [| reflexivity].
      apply String.eqb_eq in E1. subst k0. now rewrite String.eqb_sym, E0.
Qed.

Lemma lookup_not_in k o : ~ In k (keys o) -> lookup k o = None.
Proof.
  induction o as [| [k0 v0] o IH]; cbn; intros Hn; [reflexivity |].
  destruct (k0 =? k) eqn:E.
  - apply String.eqb_eq in E. tauto.
  - apply IH. tauto.
Qed.

(** Assigning a source: its value wins, the target's is kept otherwise. *)
Lemma lookup_assign1 k (src : StyleMap) :
  wfStyle src ->
  forall target,
    lookup k (assign1 target (Some src)) =
    match lookup k src with
    | Some v => Some v
    | None => lookup k target
    end.
Proof.
  unfold wfStyle, assign1.
  induction src as [| [k0 v0] src IH]; intros Hwf target; [reflexivity |].
  cbn in Hwf. inversion Hwf as [| ? ? Hk0 Hsrc]; subst.
  cbn [fold_left fst snd lookup]. rewrite (IH Hsrc), lookup_setProp.
  destruct (k0 =? k) eqn:E; [| reflexivity].
  apply String.eqb_eq in E. subst k0.
  now rewrite (lookup_not_in _ _ Hk0).
Qed.

Lemma setProp_fresh k v o :
  ~ In k (keys o) -> setProp k v o = (o ++ [(k, v)])%list.
Proof.
  induction o as [| [k0 v0] o IH]; cbn; intros Hn; [reflexivity |].
  destruct (k0 =? k) eqn:E.
  - apply String.eqb_eq in E. tauto.
  - rewrite IH by tauto. reflexivity.
Qed.

Lemma assign1_fresh (src : StyleMap) :
  forall target : StyleMap,
    NoDup (keys (target ++ src)%list) ->
    assign1 target (Some src) = (target ++ src)%list.
Proof.
  unfold assign1.
  induction src as [| [k0 v0] src IH]; intros target Hnd; cbn [fold_left].
  - now rewrite app_nil_r.
  - cbn [fst snd]. unfold keys in Hnd. rewrite map_app in Hnd. cbn in Hnd.
    pose proof (NoDup_remove_2 _ _ _ Hnd) as Hfresh.
    rewrite setProp_fresh.
    + rewrite IH; [now rewrite <- app_assoc |].
      unfold keys. rewrite <- app_assoc, map_app. exact Hnd.
    + intros Hin. apply Hfresh. apply in_or_app. left. exact Hin.
Qed.

Lemma NoDup_disjoint_app (a b : list string) :
  NoDup a -> NoDup b -> (forall k, In k a -> ~ In k b) -> NoDup (a ++ b).
Proof.
  induction a as [| x a IH]; intros Ha Hb Hd; [exact Hb |].
  inversion Ha as [| ? ? Hx Ha']; subst. cbn. constructor.
  - intros Hin. apply in_app_or in Hin as [Hin | Hin]; [tauto |].
    exact (Hd x (or_introl eq_refl) Hin).
  - apply IH; [exact Ha' | exact Hb |].
    intros k Hk. apply Hd. now right.
Qed.

Lemma assign1_copy s : wfStyle s -> assign1 [] (Some s) = s.
Proof. intros Hs. exact (assign1_fresh s [] Hs). Qed.

Lemma inherited2_unfold s1 s2 :
  wfStyle s1 -> inherited2 s1 s2 = assign1 s1 (Some s2).
Proof.
  intros H1. unfold inherited2, objectAssign. cbn [fold_left].
  change (assign1 [] (Some [])) with (@nil (string * string)).
  now rewrite !(assign1_copy s1 H1).
Qed.

Lemma inherited2_lookup s1 s2 k :
  wfStyle s1 -> wfStyle s2 ->
  lookup k (inherited2 s1 s2) =
  match lookup k s2 with
  | Some v => Some v
  | None => lookup k s1
  end.
Proof.
  intros H1 H2. rewrite (inherited2_unfold s1 s2 H1).
  apply (lookup_assign1 k s2 H2).
Qed.

Lemma inherited2_disjoint s1 s2 :
  wfStyle s1 -> wfStyle s2 ->
  (forall k, In k (keys s1) -> ~ In k (keys s2)) ->
  inherited2 s1 s2 = (s1 ++ s2)%list.
Proof.
  intros H1 H2 Hd. rewrite (inherited2_unfold s1 s2 H1).
  apply assign1_fresh. unfold keys. rewrite map_app.
  now apply NoDup_disjoint_app.
Qed.

Lemma stylesOf_skip toCSS a l n :
  nth_error (stylesOf toCSS (a ++ l)) (length (stylesOf toCSS a) + n) =
  nth_error (stylesOf toCSS l) n.
Proof.
  rewrite stylesOf_app, nth_error_app2 by lia. f_equal. lia.
Qed.

Lemma RevA_leaf_style xs0 ys0 t1 p1 s1 xs1 ys1 t2 p2 s2 xs2 ys2 text :
  visitedA t1 = true -> visitedA t2 = true ->
  let st1 := objectAssign [] [Some []; Some s1] in
  let st2 := inherited2 s1 s2 in
  let inner := Instance t2 p2 s2 (xs2 ++ [Text text] ++ ys2) in
  let outer := Instance t1 p1 s1 (xs1 ++ [inner] ++ ys1) in
  nth_error
    (snd (RevA.recursivelyConcatenate (xs0 ++ [outer] ++ ys0) "" [] []))
    (length (snd (RevA.recursivelyConcatenate xs0 "" [] []))
     + (length (snd (RevA.recursivelyConcatenate xs1 "" st1 []))
        + length (snd (RevA.recursivelyConcatenate xs2 "" st2 [])))) =
  Some (RevA.toCSSString st2).
Proof.
  intros H1 H2 st1 st2 inner outer.
  apply andb_true_iff in H1 as [H1b H1i]. apply negb_true_iff in H1b, H1i.
  apply andb_true_iff in H2 as [H2b H2i]. apply negb_true_iff in H2b, H2i.
  rewrite !RevA_pieces. cbn [snd].
  unfold RevAPieces.pieces. subst outer inner.
  rewrite flat_map_app. rewrite stylesOf_skip.
  cbn [app flat_map RevAPieces.piecesOf]. rewrite H1b, H1i.
  rewrite flat_map_app. fold st1. rewrite <- !app_assoc. rewrite stylesOf_skip.
  cbn [app flat_map RevAPieces.piecesOf]. rewrite H2b, H2i.
  rewrite flat_map_app. fold (inherited2 s1 s2). fold st2.
  rewrite <- !app_assoc.
  rewrite <- (Nat.add_0_r (length _)). rewrite stylesOf_skip.
  reflexivity.
Qed.

Lemma RevB_leaf_style xs0 ys0 t1 p1 s1 xs1 ys1 t2 p2 s2 xs2 ys2 text :
  visitedB t1 = true -> visitedB t2 = true ->
  let st1 := objectAssign [] [Some []; Some s1] in
  let st2 := inherited2 s1 s2 in
  let inner := Instance t2 p2 s2 (xs2 ++ [Text text] ++ ys2) in
  let outer := Instance t1 p1 s1 (xs1 ++ [inner] ++ ys1) in
  nth_error
    (snd (RevB.recursivelyConcatenate (xs0 ++ [outer] ++ ys0) "" [] []))
    (length (snd (RevB.recursivelyConcatenate xs0 "" [] []))
     + (length (snd (RevB.recursivelyConcatenate xs1 "" st1 []))
        + length (snd (RevB.recursivelyConcatenate xs2 "" st2 [])))) =
  Some (RevB.toCSSString st2).
Proof.
  intros H1 H2 st1 st2 inner outer.
  apply negb_true_iff in H1, H2.
  rewrite !RevB_pieces. cbn [snd].
  unfold RevBPieces.pieces. subst outer inner.
  rewrite flat_map_app. rewrite stylesOf_skip.
  cbn [app flat_map RevBPieces.piecesOf]. rewrite H1.
  rewrite flat_map_app. fold st1. rewrite <- !app_assoc. rewrite stylesOf_skip.
  cbn [app flat_map RevBPieces.piecesOf]. rewrite H2.
  rewrite flat_map_app. fold (inherited2 s1 s2). fold st2.
  rewrite <- !app_assoc.
  rewrite <- (Nat.add_0_r (length _)). rewrite stylesOf_skip.
  reflexivity.
Qed.

(** C8: a text leaf under an outer element with style [s1] and an inner
    element with style [s2] (both of a tag whose children are visited, with
    any siblings around) gets, at its position in the style arguments, the
    serialisation of the merged style; the merged style gives every property
    the inner value when the inner style has it and the outer value
    otherwise, and is the outer style followed by the inner one when their
    properties are disjoint.  Rendering strong > em[color #21a0a0] > "Chris"
    logs the format string [%cChris] with one style argument that holds
    both [font-weight:bolder;] and [color:#21a0a0;]. *)
Theorem C8_style_inheritance :
  (forall xs0 ys0 t1 p1 s1 xs1 ys1 t2 p2 s2 xs2 ys2 text,
      visitedA t1 = true -> visitedA t2 = true ->
      let st1 := objectAssign [] [Some []; Some s1] in
      let st2 := inherited2 s1 s2 in
      let inner := Instance t2 p2 s2 (xs2 ++ [Text text] ++ ys2) in
      let outer := Instance t1 p1 s1 (xs1 ++ [inner] ++ ys1) in
      nth_error
        (snd (RevA.recursivelyConcatenate (xs0 ++ [outer] ++ ys0) "" [] []))
        (length (snd (RevA.recursivelyConcatenate xs0 "" [] []))
         + (length (snd (RevA.recursivelyConcatenate xs1 "" st1 []))
            + length (snd (RevA.recursivelyConcatenate xs2 "" st2 [])))) =
      Some (RevA.toCSSString st2)) /\
  (forall xs0 ys0 t1 p1 s1 xs1 ys1 t2 p2 s2 xs2 ys2 text,
      visitedB t1 = true -> visitedB t2 = true ->
      let st1 := objectAssign [] [Some []; Some s1] in
      let st2 := inherited2 s1 s2 in
      let inner := Instance t2 p2 s2 (xs2 ++ [Text text] ++ ys2) in
      let outer := Instance t1 p1 s1 (xs1 ++ [inner] ++ ys1) in
      nth_error
        (snd (RevB.recursivelyConcatenate (xs0 ++ [outer] ++ ys0) "" [] []))
        (length (snd (RevB.recursivelyConcatenate xs0 "" [] []))
         + (length (snd (RevB.recursivelyConcatenate xs1 "" st1 []))
            + length (snd (RevB.recursivelyConcatenate xs2 "" st2 [])))) =
      Some (RevB.toCSSString st2)) /\
  (forall s1 s2 k,
      wfStyle s1 -> wfStyle s2 ->
      lookup k (inherited2 s1 s2) =
      match lookup k s2 with
      | Some v => Some v
      | None => lookup k s1
      end) /\
  (forall s1 s2,
      wfStyle s1 -> wfStyle s2 ->
      (forall k, In k (keys s1) -> ~ In k (keys s2)) ->
      inherited2 s1 s2 = (s1 ++ s2)%list) /\
  (exists css,
      RevAHost.render mountEngine chrisElement stdConsole "log" [] =
      (Returns tt, [("log", [VString "%cChris"; VString css])]) /\
      contains "font-weight:bolder;" css = true /\
      contains "color:#21a0a0;" css = true) /\
  (exists css,
      RevBHost.render mountEngine chrisElement stdConsole "log" [] =
      (Returns tt, [("log", [VString "%cChris"; VString css])]) /\
      contains "font-weight:bolder;" css = true /\
      contains "color:#21a0a0;" css = true).
Proof.
  split; [exact RevA_leaf_style |].
  split; [exact RevB_leaf_style |].
  split; [intros; now apply inherited2_lookup |].
  split; [exact inherited2_disjoint |].
  split.
  - exists "font-weight:bolder;font-style:italic;color:#21a0a0;".
    repeat split; reflexivity.
  - exists "font-weight:bolder;font-style:italics;color:#21a0a0;".
    repeat split; reflexivity.
Qed.

Lemma wfStyle_one k v : wfStyle [(k, v)].
Proof. repeat constructor. intros []. Defined.

Lemma C8_style_inheritance_witness :
  nth_error
    (snd (RevA.recursivelyConcatenate
            [Instance "strong" noProps [("fontWeight", "bolder")]
               [Instance "em" noProps [("fontWeight", "normal")]
                  [Text "Chris"]]] "" [] [])) 0 =
  Some "font-weight:normal;" /\
  nth_error
    (snd (RevB.recursivelyConcatenate
            [Text "Hello, ";
             Instance "strong" noProps [("fontWeight", "bolder")]
               [Instance "em" noProps [("color", "#21a0a0")]
                  [Text "Chris"]]] "" [] [])) 1 =
  Some "font-weight:bolder;color:#21a0a0;" /\
  lookup "fontWeight"
         (inherited2 [("fontWeight", "bolder")] [("fontWeight", "normal")]) =
  Some "normal" /\
  inherited2 [("fontWeight", "bolder")] [("color", "#21a0a0")] =
  [("fontWeight", "bolder"); ("color", "#21a0a0")].
Proof.
  split; [| split; [| split]].
  - exact (proj1 C8_style_inheritance [] [] "strong" noProps
                 [("fontWeight", "bolder")] [] [] "em" noProps
                 [("fontWeight", "normal")] [] [] "Chris" eq_refl eq_refl).
  - exact (proj1 (proj2 C8_style_inheritance) [Text "Hello, "] [] "strong"
                 noProps [("fontWeight", "bolder")] [] [] "em" noProps
                 [("color", "#21a0a0")] [] [] "Chris" eq_refl eq_refl).
  - exact (proj1 (proj2 (proj2 C8_style_inheritance))
                 [("fontWeight", "bolder")] [("fontWeight", "normal")]
                 "fontWeight" (wfStyle_one _ _) (wfStyle_one _ _)).
  - refine (proj1 (proj2 (proj2 (proj2 C8_style_inheritance)))
                  [("fontWeight", "bolder")] [("color", "#21a0a0")]
                  (wfStyle_one _ _) (wfStyle_one _ _) _).
    intros k [Hk | []] [Hk' | []]. subst k. discriminate.
Defined.

(** ** The render boundary *)

(** C4, as stated, fails in revision A, whose [render] has no [try]: with a
    method name the target does not have, the [TypeError] of the dispatch
    comes out of [render], and the target's [error] method is not called. *)
Lemma C4_render_throws_in_RevA :
  RevAHost.render mountEngine (VString "x") stdConsole "nope" [] =
  (Throws TypeError, []).
Proof. reflexivity. Qed.

(** C4, amended: in revision B, whatever the engine does, [render] on a
    target that has an [error] method returns normally, and an error that
    comes out of [updateContainer] is handed to that method; in revision A
    [render] returns or throws exactly as [updateContainer] does. *)
Theorem C4_render_boundary :
  (forall (engine : Engine) root ctx name log,
      ctx "error" = true ->
      let rec := engine RevBHost.hostConfig in
      let container := createContainer rec (mkContainer ctx name false) in
      exists log',
        RevBHost.render engine root ctx name log = (Returns tt, log') /\
        forall e c l,
          updateContainer rec root container log = (Throws e, c, l) ->
          log' = (l ++ [("error", [VError e])])%list) /\
  (forall (engine : Engine) root ctx name log,
      let rec := engine RevAHost.hostConfig in
      let container := createContainer rec (mkContainer ctx name false) in
      forall r c l,
        updateContainer rec root container log = (r, c, l) ->
        RevAHost.render engine root ctx name log = (r, l)).
Proof.
  split.
  - intros engine root ctx name log Herr rec container.
    unfold RevBHost.render, RevBHost.reconciler. fold rec. fold container.
    destruct (updateContainer rec root container log) as [[[u | e] c] l].
    + exists l. split; [reflexivity |]. intros e c' l' Heq. discriminate.
    + exists (l ++ [("error", [VError e])])%list. split.
      * unfold invoke. now rewrite Herr.
      * intros e' c' l' Heq. now inversion Heq.
  - intros engine root ctx name log rec container r c l Heq.
    unfold RevAHost.render, RevAHost.reconciler. fold rec. fold container.
    now rewrite Heq.
Qed.

Lemma C4_render_boundary_witness :
  RevBHost.render mountEngine (VElement "div" noProps []) stdConsole "log" [] =
  (Returns tt,
   [("error",
     [VError (mkError "Invalid element: div is not an inline element.")])]).
Proof.
  destruct (proj1 C4_render_boundary mountEngine (VElement "div" noProps [])
                  stdConsole "log" [] eq_refl) as [log' [Hr Hl]].
  rewrite Hr. f_equal.
  exact (Hl (mkError "Invalid element: div is not an inline element.")
            (mkContainer stdConsole "log" false) [] eq_refl).
Defined.

(** ** Commits of one session *)

(** C6, as stated, fails in revision B: a second readiness signal is not
    silent, [prepareForCommit] throws. *)
Lemma C6_second_commit_throws_in_RevB :
  commit RevBHost.hostConfig (mkContainer stdConsole "log" false)
         [Text "x"] [] =
  (Returns tt, mkContainer stdConsole "log" true,
   [("log", [VString "%cx"; VString ""])]) /\
  commit RevBHost.hostConfig (mkContainer stdConsole "log" true)
         [Text "x"] [("log", [VString "%cx"; VString ""])] =
  (Throws (mkError "Console has already committed this root."),
   mkContainer stdConsole "log" true,
   [("log", [VString "%cx"; VString ""])]).
Proof. split; reflexivity. Qed.

Lemma RevA_commit_committed c newChildren log :
  committed c = true ->
  commit RevAHost.hostConfig c newChildren log =
  (Returns tt, mkContainer (context c) (method c) true, log).
Proof.
  intros Hc. unfold commit. cbn.
  unfold RevAHost.replaceContainerChildren. now rewrite Hc.
Qed.

Lemma RevB_commit_committed c newChildren log :
  committed c = true ->
  commit RevBHost.hostConfig c newChildren log =
  (Throws (mkError "Console has already committed this root."), c, log).
Proof.
  intros Hc. unfold commit. cbn.
  unfold RevBHost.prepareForCommit. now rewrite Hc.
Qed.

Lemma RevA_commits_committed signals :
  forall c log,
    committed c = true ->
    snd (commits RevAHost.hostConfig c signals log) = log.
Proof.
  induction signals as [| ch rest IH]; intros c log Hc; [reflexivity |].
  cbn [commits]. rewrite (RevA_commit_committed c ch log Hc).
  now apply IH.
Qed.

Lemma RevB_commits_committed signals :
  forall c log,
    committed c = true ->
    snd (commits RevBHost.hostConfig c signals log) = log.
Proof.
  induction signals as [| ch rest IH]; intros c log Hc; [reflexivity |].
  cbn [commits]. rewrite (RevB_commit_committed c ch log Hc).
  now apply IH.
Qed.

Lemma RevA_commits_once signals :
  forall c log,
    length (snd (commits RevAHost.hostConfig c signals log)) <= S (length log).
Proof.
  induction signals as [| ch rest IH]; intros c log; [cbn; lia |].
  destruct (committed c) eqn:Hc.
  - rewrite (RevA_commits_committed _ c log Hc). lia.
  - cbn [commits]. unfold commit. cbn.
    unfold RevAHost.replaceContainerChildren. rewrite Hc.
    destruct (RevA.recursivelyConcatenate ch "" [] []) as [s u].
    unfold invoke. destruct (context c (method c)).
    + rewrite RevA_commits_committed by reflexivity.
      rewrite length_app. cbn. lia.
    + apply IH.
Qed.

Lemma RevB_commits_once signals :
  forall c log,
    length (snd (commits RevBHost.hostConfig c signals log)) <= S (length log).
Proof.
  induction signals as [| ch rest IH]; intros c log; [cbn; lia |].
  destruct (committed c) eqn:Hc.
  - rewrite (RevB_commits_committed _ c log Hc). lia.
  - cbn [commits]. unfold commit. cbn.
    unfold RevBHost.prepareForCommit, RevBHost.replaceContainerChildren.
    rewrite Hc.
    destruct (RevB.recursivelyConcatenate ch "" [] []) as [s u].
    unfold invoke. destruct (context c (method c)).
    + rewrite RevB_commits_committed by reflexivity.
      rewrite length_app. cbn. lia.
    + apply IH.
Qed.

(** C6, amended: in both revisions a session that starts uncommitted makes
    at most one call to its output target over any sequence of readiness
    signals, and [replaceContainerChildren] on a committed container
    returns without output.  Once the flag is set, a further signal is a
    silent no-op in revision A; in revision B it gives no output either
    but [prepareForCommit] throws "Console has already committed this
    root.". *)
Theorem C6_at_most_one_dispatch :
  (forall ctx name signals,
      length (snd (commits RevAHost.hostConfig (mkContainer ctx name false)
                           signals [])) <= 1) /\
  (forall ctx name signals,
      length (snd (commits RevBHost.hostConfig (mkContainer ctx name false)
                           signals [])) <= 1) /\
  (forall c newChildren log,
      committed c = true ->
      RevAHost.replaceContainerChildren c newChildren log = (Returns tt, log) /\
      RevBHost.replaceContainerChildren c newChildren log = (Returns tt, log)) /\
  (forall c newChildren log,
      committed c = true ->
      commit RevAHost.hostConfig c newChildren log =
      (Returns tt, mkContainer (context c) (method c) true, log)) /\
  (forall c newChildren log,
      committed c = true ->
      commit RevBHost.hostConfig c newChildren log =
      (Throws (mkError "Console has already committed this root."), c, log)).
Proof.
  split; [intros; apply RevA_commits_once |].
  split; [intros; apply RevB_commits_once |].
  split.
  - intros c ch log Hc.
    unfold RevAHost.replaceContainerChildren,
      RevBHost.replaceContainerChildren.
    now rewrite Hc.
  - split; [exact RevA_commit_committed | exact RevB_commit_committed].
Qed.

Lemma C6_at_most_one_dispatch_witness :
  commits RevAHost.hostConfig (mkContainer stdConsole "log" false)
          [[Text "x"]; [Text "y"]] [] =
  (mkContainer stdConsole "log" true, [("log", [VString "%cx"; VString ""])]) /\
  commit RevAHost.hostConfig (mkContainer stdConsole "log" true) [Text "y"] [] =
  (Returns tt, mkContainer stdConsole "log" true, []) /\
  commit RevBHost.hostConfig (mkContainer stdConsole "log" true) [Text "y"] [] =
  (Throws (mkError "Console has already committed this root."),
   mkContainer stdConsole "log" true, []).
Proof.
  split; [reflexivity |]. split.
  - exact (proj1 (proj2 (proj2 (proj2 C6_at_most_one_dispatch)))
                 (mkContainer stdConsole "log" true) [Text "y"] [] eq_refl).
  - exact (proj2 (proj2 (proj2 (proj2 C6_at_most_one_dispatch)))
                 (mkContainer stdConsole "log" true) [Text "y"] [] eq_refl).
Defined.

(** ** The interception wrapper *)

(** Revision A redirects exactly when the call has one argument and that
    argument is an element. *)
Lemma RevA_overrides_redirect engine ctx name f :
  RevAHost.overrides engine ctx name = Some f ->
  forall args log,
    f args log =
    if Nat.eqb (length args) 1 && isElement (nth 0 args VUndefined)
    then RevAHost.render engine (nth 0 args VUndefined) ctx name log
    else invoke ctx name args log.
Proof.
  unfold RevAHost.overrides. intros Hf.
  destruct (ctx name && includes methods name); [| discriminate].
  inversion Hf. reflexivity.
Qed.

(** C7 in revision B at [log("hello")]: the condition is written with [||]
    and tests [root.type], so a single argument that is no element is
    rendered instead of being passed to the original method. *)
Theorem C7_RevB_redirects_non_element :
  exists f,
    RevBHost.overrides mountEngine stdConsole "log" = Some f /\
    isElement (VString "hello") = false /\
    f [VString "hello"] [] =
    RevBHost.render mountEngine (VString "hello") stdConsole "log" [] /\
    f [VString "hello"] [] =
    (Returns tt, [("log", [VString "%chello"; VString ""])]) /\
    invoke stdConsole "log" [VString "hello"] [] =
    (Returns tt, [("log", [VString "hello"])]) /\
    f [VString "hello"] [] <> invoke stdConsole "log" [VString "hello"] [].
Proof.
  eexists. split; [reflexivity |].
  repeat split; try reflexivity. discriminate.
Qed.

(** ** Worked examples *)

(** The image of the README: one space, styled by the image's own style. *)
Lemma kitten_image :
  RevAHost.render mountEngine (VElement "img" kittenProps []) stdConsole
                  "log" [] =
  (Returns tt,
   [("log",
     [VString "%c ";
      VString ("font-size:0;padding-left:180px;padding-top:150px;"
               ++ "background-image:url(http://placekitten.com/180/150);")])]).
Proof. reflexivity. Qed.

(** The anchor of the README, in revision A. *)
Lemma google_anchor :
  RevAHost.render mountEngine
                  (VElement "a" googleProps [VString "Google"]) stdConsole
                  "log" [] =
  (Returns tt,
   [("log", [VString "%cGoogle https://google.com"; VString "color:blue;"])]).
Proof. reflexivity. Qed.

(** ** Further properties of the flattener *)

(** X1: in both revisions [recursivelyConcatenate] only appends: run on a
    format string and a [subs] array that already hold something, it
    returns them followed by what it returns on empty ones. *)
Theorem X1_accumulators_only_grow :
  (forall children str style subs,
      RevA.recursivelyConcatenate children str style subs =
      (str ++ fst (RevA.recursivelyConcatenate children "" style []),
       (subs ++ snd (RevA.recursivelyConcatenate children "" style []))%list)) /\
  (forall children str style subs,
      RevB.recursivelyConcatenate children str style subs =
      (str ++ fst (RevB.recursivelyConcatenate children "" style []),
       (subs ++ snd (RevB.recursivelyConcatenate children "" style []))%list)).
Proof.
  split; intros children str style subs.
  - exact (RevA_framed children style str subs).
  - exact (RevB_framed children style str subs).
Qed.

(** X2: in revision A an image never has its children visited: it adds a
    marker and one space and pushes the serialised merge of the inherited
    style and its own.  In revision B, which has no image case, an ["img"]
    instance is flattened as its children under the merged style. *)
Theorem X2_img_flattening :
  (forall props istyle children str style subs,
      RevA.recursivelyConcatenate [Instance "img" props istyle children]
                                  str style subs =
      (str ++ "%c ",
       (subs ++ [RevA.toCSSString
                   (objectAssign [] [Some style; Some istyle])])%list)) /\
  (forall props istyle children str style subs,
      RevB.recursivelyConcatenate [Instance "img" props istyle children]
                                  str style subs =
      RevB.recursivelyConcatenate
        children str (objectAssign [] [Some style; Some istyle]) subs).
Proof.
  split; intros props istyle children str style subs.
  - unfold RevA.recursivelyConcatenate. cbn.
    now rewrite string_app_nil_r.
  - unfold RevB.recursivelyConcatenate. cbn [forEach RevB.visit].
    change ("img" =? "br") with false. cbv iota.
    now destruct (forEach _ children str subs).
Qed.

Lemma formatOf_flat_map (f : Node -> list Piece) l :
  formatOf (flat_map f l) = joinAll (map (fun c => formatOf (f c)) l).
Proof.
  induction l as [| c l IH]; [reflexivity |].
  cbn [flat_map map joinAll]. now rewrite formatOf_app, IH.
Qed.

Lemma joinAll_map_ext (f g : Node -> string) l :
  Forall (fun c => f c = g c) l -> joinAll (map f l) = joinAll (map g l).
Proof.
  induction 1 as [| c l Hc _ IH]; [reflexivity |].
  cbn [map joinAll]. now rewrite Hc, IH.
Qed.

Lemma RevA_format_erase child :
  forall s s',
    formatOf (RevAPieces.piecesOf child s) =
    formatOf (RevAPieces.piecesOf (eraseStyles child) s').
Proof.
  induction child as [t | ty p st ch IH] using Node_forall_ind; intros s s'.
  - reflexivity.
  - cbn [RevAPieces.piecesOf eraseStyles]. rewrite !formatOf_app. f_equal.
    destruct (ty =? "br"); [reflexivity |].
    destruct (ty =? "img"); [reflexivity |].
    rewrite !formatOf_flat_map, map_map. apply joinAll_map_ext.
    eapply Forall_impl; [| exact IH]. intros c Hc. apply Hc.
Qed.

Lemma RevB_format_erase child :
  forall s s',
    formatOf (RevBPieces.piecesOf child s) =
    formatOf (RevBPieces.piecesOf (eraseStyles child) s').
Proof.
  induction child as [t | ty p st ch IH] using Node_forall_ind; intros s s'.
  - reflexivity.
  - cbn [RevBPieces.piecesOf eraseStyles].
    destruct (ty =? "br"); [reflexivity |].
    rewrite !formatOf_flat_map, map_map. apply joinAll_map_ext.
    eapply Forall_impl; [| exact IH]. intros c Hc. apply Hc.
Qed.

(** X3: the format string owes nothing to styles: in both revisions it is
    the same for any two inherited styles and after every instance style
    of the tree is emptied. *)
Theorem X3_format_ignores_styles :
  (forall children s s',
      fst (RevA.recursivelyConcatenate children "" s []) =
      fst (RevA.recursivelyConcatenate (map eraseStyles children) "" s' [])) /\
  (forall children s s',
      fst (RevB.recursivelyConcatenate children "" s []) =
      fst (RevB.recursivelyConcatenate (map eraseStyles children) "" s' [])).
Proof.
  split; intros children s s'.
  - rewrite !RevA_pieces. cbn [fst]. unfold RevAPieces.pieces.
    rewrite !formatOf_flat_map, map_map. apply joinAll_map_ext.
    apply Forall_forall. intros c _. apply RevA_format_erase.
  - rewrite !RevB_pieces. cbn [fst]. unfold RevBPieces.pieces.
    rewrite !formatOf_flat_map, map_map. apply joinAll_map_ext.
    apply Forall_forall. intros c _. apply RevB_format_erase.
Qed.

Lemma plainOf_app ps qs : plainOf (ps ++ qs) = plainOf ps ++ plainOf qs.
Proof.
  induction ps as [| [st t | | h] ps IH]; cbn [plainOf app].
  - reflexivity.
  - now rewrite IH, string_app_assoc.
  - now rewrite IH.
  - rewrite IH. cbn. now rewrite string_app_assoc.
Qed.

Lemma plainOf_flat_map (f : Node -> list Piece) l :
  plainOf (flat_map f l) = joinAll (map (fun c => plainOf (f c)) l).
Proof.
  induction l as [| c l IH]; [reflexivity |].
  cbn [flat_map map joinAll]. now rewrite plainOf_app, IH.
Qed.

Lemma stripMarkers_formatOf ps :
  forallb markerFree ps = true -> stripMarkers (formatOf ps) = plainOf ps.
Proof.
  unfold stripMarkers.
  induction ps as [| p ps IH]; intros Hfree; [reflexivity |].
  cbn [forallb] in Hfree. apply andb_true_iff in Hfree as [Hp Hps].
  specialize (IH Hps). pose proof (formatOf_not_c ps) as Hc.
  destruct p as [st t | | h]; cbn [markerFree] in Hp; cbn [formatOf plainOf].
  - apply Nat.eqb_eq in Hp.
    rewrite splitMarkers_marker, (splitMarkers_app_free _ _ Hp Hc).
    cbn [fst snd joinAll]. rewrite <- IH.
    change ("" ++ ?x) with x. now rewrite string_app_assoc.
  - rewrite (splitMarkers_app_free newline _ eq_refl Hc).
    cbn [fst snd]. rewrite <- IH. now rewrite string_app_assoc.
  - apply Nat.eqb_eq in Hp.
    assert (Hh : countMarkers (" " ++ h) = 0) by (destruct h; exact Hp).
    rewrite <- (string_app_assoc " " h (formatOf ps)).
    rewrite (splitMarkers_app_free _ _ Hh Hc). cbn [fst snd].
    rewrite <- (string_app_assoc " " h (plainOf ps)), <- IH.
    now rewrite !string_app_assoc.
Qed.

Lemma RevA_targetOf_plain type props :
  plainOf (RevAPieces.targetOf type props) = RevA.hrefSuffix type props.
Proof.
  unfold RevAPieces.targetOf, RevA.hrefSuffix.
  destruct (type =? "a"); [| reflexivity].
  destruct (href props) as [h |]; [| reflexivity].
  destruct (h =? ""); [reflexivity |].
  cbn. now rewrite string_app_nil_r.
Qed.

Lemma RevA_plainOf_piecesOf child :
  forall s, plainOf (RevAPieces.piecesOf child s) = textContentA child.
Proof.
  induction child as [t | ty p st ch IH] using Node_forall_ind; intros s.
  - cbn. apply string_app_nil_r.
  - cbn [RevAPieces.piecesOf textContentA].
    rewrite plainOf_app, RevA_targetOf_plain. f_equal.
    destruct (ty =? "br"); [reflexivity |].
    destruct (ty =? "img"); [reflexivity |].
    rewrite plainOf_flat_map. apply joinAll_map_ext.
    eapply Forall_impl; [| exact IH]. intros c Hc. apply Hc.
Qed.

Lemma RevB_plainOf_piecesOf child :
  forall s, plainOf (RevBPieces.piecesOf child s) = textContentB child.
Proof.
  induction child as [t | ty p st ch IH] using Node_forall_ind; intros s.
  - cbn. apply string_app_nil_r.
  - cbn [RevBPieces.piecesOf textContentB].
    destruct (ty =? "br"); [reflexivity |].
    rewrite plainOf_flat_map. apply joinAll_map_ext.
    eapply Forall_impl; [| exact IH]. intros c Hc. apply Hc.
Qed.

(** X4: when no emitted text and no anchor target holds a marker of its
    own, taking the markers out of the format string leaves the text of
    the tree: the leaf texts in order, with a newline for each line break
    and, in revision A, a space for each image and the target after each
    anchor. *)
Theorem X4_markers_out_gives_text :
  (forall children style,
      forallb markerFree (RevAPieces.pieces children style) = true ->
      stripMarkers (fst (RevA.recursivelyConcatenate children "" style [])) =
      joinAll (map textContentA children)) /\
  (forall children style,
      forallb markerFree (RevBPieces.pieces children style) = true ->
      stripMarkers (fst (RevB.recursivelyConcatenate children "" style [])) =
      joinAll (map textContentB children)).
Proof.
  split; intros children style Hfree.
  - rewrite RevA_pieces. cbn [fst].
    rewrite (stripMarkers_formatOf _ Hfree).
    unfold RevAPieces.pieces. rewrite plainOf_flat_map.
    apply joinAll_map_ext, Forall_forall. intros c _.
    apply RevA_plainOf_piecesOf.
  - rewrite RevB_pieces. cbn [fst].
    rewrite (stripMarkers_formatOf _ Hfree).
    unfold RevBPieces.pieces. rewrite plainOf_flat_map.
    apply joinAll_map_ext, Forall_forall. intros c _.
    apply RevB_plainOf_piecesOf.
Qed.

Lemma X4_markers_out_gives_text_witness :
  stripMarkers (fst (RevA.recursivelyConcatenate helloTree "" [] [])) =
  "Hello, Chris" ++ newline ++ "!" /\
  stripMarkers (fst (RevB.recursivelyConcatenate helloTree "" [] [])) =
  "Hello, Chris" ++ newline ++ "!".
Proof.
  split.
  - exact (eq_trans (proj1 X4_markers_out_gives_text helloTree [] eq_refl)
                    eq_refl).
  - exact (eq_trans (proj2 X4_markers_out_gives_text helloTree [] eq_refl)
                    eq_refl).
Defined.

Lemma flat_map_ext_Forall (f g : Node -> list Piece) l :
  Forall (fun c => f c = g c) l -> flat_map f l = flat_map g l.
Proof.
  induction 1 as [| c l Hc _ IH]; [reflexivity |].
  cbn [flat_map]. now rewrite Hc, IH.
Qed.

Lemma plain_piecesOf child :
  forall s,
    plainNode child = true ->
    RevAPieces.piecesOf child s = RevBPieces.piecesOf child s.
Proof.
  induction child as [t | ty p st ch IH] using Node_forall_ind;
    intros s Hplain; [reflexivity |].
  cbn [plainNode] in Hplain.
  apply andb_true_iff in Hplain as [Hplain Hch].
  apply andb_true_iff in Hplain as [Hplain Hhref].
  apply andb_true_iff in Hplain as [Hbr Himg].
  apply negb_true_iff in Hbr, Himg. apply String.eqb_eq in Hhref.
  cbn [RevAPieces.piecesOf RevBPieces.piecesOf]. rewrite Hbr, Himg.
  assert (Ht : RevAPieces.targetOf ty p = []).
  { pose proof (RevA_targetOf_format ty p) as Hf. rewrite Hhref in Hf.
    destruct (RevAPieces.targetOf ty p) as [| [st' t | | h] r];
      [reflexivity | discriminate Hf ..]. }
  rewrite Ht, app_nil_r. apply flat_map_ext_Forall.
  rewrite forallb_forall in Hch. rewrite Forall_forall in IH |- *.
  intros c Hc. apply IH; [exact Hc | now apply Hch].
Qed.

(** X5: on a tree without line break, image or anchor target the two
    revisions return the same format string and as many style arguments,
    each the serialisation, by the revision's own [toCSSString], of the
    same inherited style. *)
Theorem X5_revisions_agree_on_plain_trees :
  forall children style,
    forallb plainNode children = true ->
    fst (RevA.recursivelyConcatenate children "" style []) =
    fst (RevB.recursivelyConcatenate children "" style []) /\
    exists styles,
      snd (RevA.recursivelyConcatenate children "" style []) =
      map RevA.toCSSString styles /\
      snd (RevB.recursivelyConcatenate children "" style []) =
      map RevB.toCSSString styles.
Proof.
  intros children style Hplain.
  assert (Hp : RevAPieces.pieces children style =
               RevBPieces.pieces children style).
  { unfold RevAPieces.pieces, RevBPieces.pieces.
    apply flat_map_ext_Forall, Forall_forall. intros c Hc.
    apply plain_piecesOf. rewrite forallb_forall in Hplain. now apply Hplain. }
  rewrite RevA_pieces, RevB_pieces, Hp. cbn [fst snd]. split; [reflexivity |].
  exists (map fst (runsOf (RevBPieces.pieces children style))).
  unfold stylesOf. now rewrite !map_map.
Qed.

Lemma X5_revisions_agree_on_plain_trees_witness :
  fst (RevA.recursivelyConcatenate
         [Text "Hello, "; Instance "strong" noProps [] [Text "Chris"]]
         "" [] []) =
  fst (RevB.recursivelyConcatenate
         [Text "Hello, "; Instance "strong" noProps [] [Text "Chris"]]
         "" [] []).
Proof.
  exact (proj1 (X5_revisions_agree_on_plain_trees
                  [Text "Hello, "; Instance "strong" noProps [] [Text "Chris"]]
                  [] eq_refl)).
Defined.

Lemma length_runsOf_flat_map (f : Node -> list Piece) l :
  length (runsOf (flat_map f l)) =
  list_sum (map (fun c => length (runsOf (f c))) l).
Proof.
  induction l as [| c l IH]; [reflexivity |].
  cbn [flat_map map]. rewrite runsOf_app, length_app, IH. reflexivity.
Qed.

Lemma list_sum_map_ext (f g : Node -> nat) l :
  Forall (fun c => f c = g c) l -> list_sum (map f l) = list_sum (map g l).
Proof.
  induction 1 as [| c l Hc _ IH]; [reflexivity |].
  cbn [map]. change (f c + list_sum (map f l) = g c + list_sum (map g l)).
  now rewrite Hc, IH.
Qed.

Lemma RevA_slots child :
  forall s, length (runsOf (RevAPieces.piecesOf child s)) = slotsA child.
Proof.
  induction child as [t | ty p st ch IH] using Node_forall_ind; intros s.
  - reflexivity.
  - cbn [RevAPieces.piecesOf slotsA].
    rewrite runsOf_app, RevA_targetOf_runs, app_nil_r.
    destruct (ty =? "br"); [reflexivity |].
    destruct (ty =? "img"); [reflexivity |].
    rewrite length_runsOf_flat_map. apply list_sum_map_ext.
    eapply Forall_impl; [| exact IH]. intros c Hc. apply Hc.
Qed.

Lemma RevB_slots child :
  forall s, length (runsOf (RevBPieces.piecesOf child s)) = slotsB child.
Proof.
  induction child as [t | ty p st ch IH] using Node_forall_ind; intros s.
  - reflexivity.
  - cbn [RevBPieces.piecesOf slotsB].
    destruct (ty =? "br"); [reflexivity |].
    rewrite length_runsOf_flat_map. apply list_sum_map_ext.
    eapply Forall_impl; [| exact IH]. intros c Hc. apply Hc.
Qed.

(** X6: the number of style arguments is fixed by the shape of the tree,
    whatever the texts and styles: in revision A one per text leaf, line
    break and image that is not below a line break or an image; in
    revision B one per text leaf that is not below a line break. *)
Theorem X6_style_argument_count :
  (forall children style,
      length (snd (RevA.recursivelyConcatenate children "" style [])) =
      list_sum (map slotsA children)) /\
  (forall children style,
      length (snd (RevB.recursivelyConcatenate children "" style [])) =
      list_sum (map slotsB children)).
Proof.
  split; intros children style.
  - rewrite RevA_pieces. cbn [snd]. unfold stylesOf, RevAPieces.pieces.
    rewrite length_map, length_runsOf_flat_map.
    apply list_sum_map_ext, Forall_forall. intros c _. apply RevA_slots.
  - rewrite RevB_pieces. cbn [snd]. unfold stylesOf, RevBPieces.pieces.
    rewrite length_map, length_runsOf_flat_map.
    apply list_sum_map_ext, Forall_forall. intros c _. apply RevB_slots.
Qed.

(** ** Instance styles *)

Lemma keys_setProp k v (o : StyleMap) :
  keys (setProp k v o) =
  if includes (keys o) k then keys o else (keys o ++ [k])%list.
Proof.
  induction o as [| [k0 v0] o IH]; [reflexivity |].
  cbn [setProp keys map fst includes existsb] in *.
  fold (includes (map fst o) k).
  destruct (k0 =? k) eqn:E.
  - rewrite String.eqb_sym, E. reflexivity.
  - rewrite String.eqb_sym, E. cbn [orb map fst].
    fold (keys (setProp k v o)). rewrite IH. fold (keys o).
    now destruct (includes (keys o) k).
Qed.

Lemma includes_app l k x :
  includes (l ++ [k]) x = includes l x || (x =? k).
Proof.
  unfold includes. rewrite existsb_app. cbn. now rewrite orb_false_r.
Qed.

Lemma keys_assign1 (src : StyleMap) :
  wfStyle src ->
  forall target : StyleMap,
    keys (assign1 target (Some src)) = (keys target ++ newKeys target src)%list.
Proof.
  unfold wfStyle, newKeys, assign1.
  induction src as [| [k v] src IH]; intros Hwf target.
  - cbn. now rewrite app_nil_r.
  - cbn in Hwf. inversion Hwf as [| ? ? Hk Hsrc]; subst.
    cbn [fold_left fst snd]. rewrite (IH Hsrc). rewrite keys_setProp.
    cbn [keys map fst filter]. fold (keys src).
    destruct (includes (keys target) k) eqn:E; cbn [negb].
    + reflexivity.
    + rewrite <- app_assoc. cbn [app]. do 2 f_equal.
      apply filter_ext_in. intros x Hx. rewrite includes_app.
      destruct (x =? k) eqn:Ex; [| now rewrite orb_false_r].
      apply String.eqb_eq in Ex. subst x. contradiction.
Qed.

(** X7: the style of a constructed instance gives every property the value
    of [props.style] when [props.style] has it and the tag's default
    otherwise; without [props.style] it is the tag's default. *)
Theorem X7_instance_style_override :
  (forall type props inst,
      RevAHost.createInstance type props = Returns inst ->
      (style props = None -> styleOf inst = RevA.styleForType type props) /\
      (forall u k,
          style props = Some u -> wfStyle u ->
          lookup k (styleOf inst) =
          match lookup k u with
          | Some v => Some v
          | None => lookup k (RevA.styleForType type props)
          end)) /\
  (forall type props inst,
      RevBHost.createInstance type props = Returns inst ->
      (style props = None -> styleOf inst = RevB.styleForType type) /\
      (forall u k,
          style props = Some u -> wfStyle u ->
          lookup k (styleOf inst) =
          match lookup k u with
          | Some v => Some v
          | None => lookup k (RevB.styleForType type)
          end)).
Proof.
  split; intros type props inst Hc.
  - unfold RevAHost.createInstance in Hc. inversion Hc; subst inst.
    cbn [styleOf]. split.
    + intros Hs. now rewrite Hs.
    + intros u k Hs Hu. rewrite Hs. cbn. now apply lookup_assign1.
  - unfold RevBHost.createInstance in Hc.
    destruct (negb (includes RevBHost.inlineElements type)); [discriminate |].
    inversion Hc; subst inst. cbn [styleOf]. split.
    + intros Hs. now rewrite Hs.
    + intros u k Hs Hu. rewrite Hs. cbn. now apply lookup_assign1.
Qed.

Lemma wfStyle_redMark : wfStyle [("color", "red"); ("fontWeight", "bold")].
Proof.
  repeat constructor; cbn; intuition discriminate.
Defined.

Lemma X7_instance_style_override_witness :
  lookup "color"
         (styleOf (Instance "mark" redMark
                            (objectAssign (RevA.styleForType "mark" redMark)
                                          [style redMark]) [])) = Some "red" /\
  lookup "backgroundColor"
         (styleOf (Instance "mark" noProps
                            (objectAssign (RevB.styleForType "mark")
                                          [style redMark]) [])) = Some "yellow".
Proof.
  split.
  - exact (proj2 (proj1 X7_instance_style_override "mark" redMark _ eq_refl)
                 _ "color" eq_refl wfStyle_redMark).
  - exact (proj2 (proj2 X7_instance_style_override "mark" redMark _ eq_refl)
                 _ "backgroundColor" eq_refl wfStyle_redMark).
Defined.

(** X8: when no property name of [props.style] starts with a digit, the
    style of a constructed instance lists the tag's default properties
    first, in their order, then the properties of [props.style] that the
    default lacks, in the order given: an overridden default keeps its
    place in the serialised string. *)
Theorem X8_instance_style_order :
  (forall type props inst u,
      RevAHost.createInstance type props = Returns inst ->
      style props = Some u -> wfStyle u -> plainKeys u = true ->
      keys (styleOf inst) =
      (keys (RevA.styleForType type props)
         ++ newKeys (RevA.styleForType type props) u)%list) /\
  (forall type props inst u,
      RevBHost.createInstance type props = Returns inst ->
      style props = Some u -> wfStyle u -> plainKeys u = true ->
      keys (styleOf inst) =
      (keys (RevB.styleForType type)
         ++ newKeys (RevB.styleForType type) u)%list).
Proof.
  split; intros type props inst u Hc Hs Hu _.
  - unfold RevAHost.createInstance in Hc. inversion Hc; subst inst.
    cbn [styleOf]. rewrite Hs. cbn. now apply keys_assign1.
  - unfold RevBHost.createInstance in Hc.
    destruct (negb (includes RevBHost.inlineElements type)); [discriminate |].
    inversion Hc; subst inst. cbn [styleOf]. rewrite Hs. cbn.
    now apply keys_assign1.
Qed.

Lemma X8_instance_style_order_witness :
  keys (styleOf (Instance "mark" redMark
                          (objectAssign (RevA.styleForType "mark" redMark)
                                        [style redMark]) [])) =
  ["backgroundColor"; "color"; "fontWeight"] /\
  keys (styleOf (Instance "mark" noProps
                          (objectAssign (RevB.styleForType "mark")
                                        [style redMark]) [])) =
  ["backgroundColor"; "color"; "fontWeight"].
Proof.
  split.
  - exact (proj1 X8_instance_style_order "mark" redMark _ _ eq_refl eq_refl
                 wfStyle_redMark eq_refl).
  - exact (proj2 X8_instance_style_order "mark" redMark _ _ eq_refl eq_refl
                 wfStyle_redMark eq_refl).
Defined.

(** ** Further properties of the serialiser *)

Lemma joinAll_app a b : joinAll (a ++ b)%list = joinAll a ++ joinAll b.
Proof.
  induction a as [| x a IH]; [reflexivity |].
  cbn [app joinAll]. now rewrite IH, string_app_assoc.
Qed.

Lemma objectAssign_disjoint (s1 s2 : StyleMap) :
  wfStyle s1 -> wfStyle s2 ->
  (forall k, In k (keys s1) -> ~ In k (keys s2)) ->
  objectAssign [] [Some s1; Some s2] = (s1 ++ s2)%list.
Proof.
  intros H1 H2 Hd. unfold objectAssign. cbn [fold_left].
  rewrite (assign1_copy s1 H1).
  apply assign1_fresh. unfold keys. rewrite map_app.
  now apply NoDup_disjoint_app.
Qed.

Lemma RevA_toCSSString_app a b :
  RevA.toCSSString (a ++ b)%list = RevA.toCSSString a ++ RevA.toCSSString b.
Proof.
  rewrite !RevA_toCSSString_segments. unfold segmentsWith.
  now rewrite map_app, joinAll_app.
Qed.

Lemma RevB_toCSSString_app a b :
  RevB.toCSSString (a ++ b)%list = RevB.toCSSString a ++ RevB.toCSSString b.
Proof.
  rewrite !RevB_toCSSString_segments. unfold segmentsWith.
  now rewrite map_app, joinAll_app.
Qed.

(** X10: when a node's own style shares no property with the inherited
    style, and no property name of either starts with a digit, the merged
    style that [recursivelyConcatenate] hands down serialises to the
    inherited declarations followed by the node's own.  In both
    revisions. *)
Theorem X10_toCSSString_concatenation :
  forall inheritedStyle own,
    wfStyle inheritedStyle -> wfStyle own ->
    plainKeys inheritedStyle = true -> plainKeys own = true ->
    (forall k, In k (keys inheritedStyle) -> ~ In k (keys own)) ->
    RevA.toCSSString (objectAssign [] [Some inheritedStyle; Some own]) =
    RevA.toCSSString inheritedStyle ++ RevA.toCSSString own /\
    RevB.toCSSString (objectAssign [] [Some inheritedStyle; Some own]) =
    RevB.toCSSString inheritedStyle ++ RevB.toCSSString own.
Proof.
  intros inheritedStyle own Hi Ho _ _ Hd.
  rewrite (objectAssign_disjoint _ _ Hi Ho Hd).
  split; [apply RevA_toCSSString_app | apply RevB_toCSSString_app].
Qed.

Lemma X10_toCSSString_concatenation_witness :
  RevA.toCSSString
    (objectAssign [] [Some [("fontWeight", "bolder")];
                      Some [("color", "#21a0a0")]]) =
  "font-weight:bolder;color:#21a0a0;".
Proof.
  refine (eq_trans
            (proj1 (X10_toCSSString_concatenation
                      [("fontWeight", "bolder")] [("color", "#21a0a0")]
                      (wfStyle_one _ _) (wfStyle_one _ _) eq_refl eq_refl _))
            eq_refl).
  intros k [Hk | []] [Hk' | []]. subst k. discriminate.
Defined.

Lemma isUpper_lowerChar c : isUpper (lowerChar c) = false.
Proof.
  destruct c as [[] [] [] [] [] [] [] []]; reflexivity.
Qed.

Lemma noUpper_toLowerCase s : noUpper (toLowerCase s) = true.
Proof.
  induction s as [| c s IH]; [reflexivity |].
  cbn [toLowerCase noUpper]. now rewrite isUpper_lowerChar, IH.
Qed.

Lemma toLowerCase_noUpper s : noUpper s = true -> toLowerCase s = s.
Proof.
  induction s as [| c s IH]; intros Hs; [reflexivity |].
  cbn [noUpper] in Hs. apply andb_true_iff in Hs as [Hc Hs].
  apply negb_true_iff in Hc. cbn [toLowerCase]. unfold lowerChar.
  now rewrite Hc, IH.
Qed.

Lemma replaceUpper_noUpper s : noUpper s = true -> RevA.replaceUpper s = s.
Proof.
  induction s as [| c s IH]; intros Hs; [reflexivity |].
  cbn [noUpper] in Hs. apply andb_true_iff in Hs as [Hc Hs].
  apply negb_true_iff in Hc. cbn [RevA.replaceUpper]. now rewrite Hc, IH.
Qed.

Lemma replaceFirst_noUpper s : noUpper s = true -> RevB.replaceFirst s = s.
Proof.
  induction s as [| c s IH]; intros Hs; [reflexivity |].
  cbn [noUpper] in Hs. apply andb_true_iff in Hs as [Hc Hs].
  cbn [RevB.replaceFirst]. destruct s as [| d s]; [reflexivity |].
  pose proof Hs as Hs'. cbn [noUpper] in Hs'.
  apply andb_true_iff in Hs' as [Hd _]. apply negb_true_iff in Hd.
  rewrite Hd, andb_false_r. now rewrite IH.
Qed.

(** X11: for an ASCII property name, in both revisions: the serialised
    name holds no upper-case letter; a name that holds none (a CSS name
    already written with hyphens) is kept as it is; and converting a
    converted name changes nothing. *)
Theorem X11_cssProp_lower_case :
  (forall prop,
      asciiName prop = true ->
      noUpper (RevA.cssProp prop) = true /\
      noUpper (RevB.cssProp prop) = true) /\
  (forall prop,
      asciiName prop = true -> noUpper prop = true ->
      RevA.cssProp prop = prop /\ RevB.cssProp prop = prop) /\
  (forall prop,
      asciiName prop = true ->
      RevA.cssProp (RevA.cssProp prop) = RevA.cssProp prop /\
      RevB.cssProp (RevB.cssProp prop) = RevB.cssProp prop).
Proof.
  assert (Hfix : forall prop,
             noUpper prop = true ->
             RevA.cssProp prop = prop /\ RevB.cssProp prop = prop).
  { intros prop Hp. unfold RevA.cssProp, RevB.cssProp.
    rewrite (replaceUpper_noUpper _ Hp), (replaceFirst_noUpper _ Hp).
    now rewrite (toLowerCase_noUpper _ Hp). }
  split; [intros prop _; split; apply noUpper_toLowerCase |].
  split; [intros prop _ Hp; now apply Hfix |].
  intros prop _. split.
  - apply Hfix, noUpper_toLowerCase.
  - apply Hfix, noUpper_toLowerCase.
Qed.

Lemma X11_cssProp_lower_case_witness :
  (noUpper (RevA.cssProp "fontSize") = true /\
   noUpper (RevB.cssProp "fontSize") = true) /\
  (RevA.cssProp "font-size" = "font-size" /\
   RevB.cssProp "font-size" = "font-size") /\
  (RevA.cssProp (RevA.cssProp "fontSize") = RevA.cssProp "fontSize" /\
   RevB.cssProp (RevB.cssProp "fontSize") = RevB.cssProp "fontSize").
Proof.
  split; [| split].
  - exact (proj1 X11_cssProp_lower_case "fontSize" eq_refl).
  - exact (proj1 (proj2 X11_cssProp_lower_case) "font-size" eq_refl eq_refl).
  - exact (proj2 (proj2 X11_cssProp_lower_case) "fontSize" eq_refl).
Defined.

Lemma length_toLowerCase s : String.length (toLowerCase s) = String.length s.
Proof.
  induction s as [| c s IH]; [reflexivity |].
  cbn [toLowerCase String.length]. now rewrite IH.
Qed.

Lemma length_replaceUpper s :
  String.length (RevA.replaceUpper s) = String.length s + countUpper s.
Proof.
  induction s as [| c s IH]; [reflexivity |].
  cbn [RevA.replaceUpper countUpper].
  destruct (isUpper c); cbn [String.length]; rewrite IH; lia.
Qed.

Lemma length_replaceFirst s :
  String.length (RevB.replaceFirst s) =
  String.length s + Nat.min 1 (boundaries s).
Proof.
  induction s as [| c s IH]; [reflexivity |].
  cbn [RevB.replaceFirst boundaries].
  destruct s as [| d s]; [reflexivity |].
  destruct (isLower c && isUpper d).
  - cbn [String.length]. cbn [Nat.add Nat.min]. lia.
  - change (String.length (String c (RevB.replaceFirst (String d s))))
      with (S (String.length (RevB.replaceFirst (String d s)))).
    rewrite IH. cbn [String.length Nat.add]. lia.
Qed.

(** X12: how many hyphens the name conversion adds.  Revision A, whose
    pattern is global, adds one per upper-case letter of the name;
    revision B, whose pattern is not, adds one when the name has a
    boundary between a lower-case and an upper-case letter, however many
    it has, and none otherwise. *)
Theorem X12_hyphens_added :
  (forall prop,
      String.length (RevA.cssProp prop) =
      String.length prop + countUpper prop) /\
  (forall prop,
      String.length (RevB.cssProp prop) =
      String.length prop + Nat.min 1 (boundaries prop)).
Proof.
  split; intros prop.
  - unfold RevA.cssProp. now rewrite length_toLowerCase, length_replaceUpper.
  - unfold RevB.cssProp. now rewrite length_toLowerCase, length_replaceFirst.
Qed.

(** ** One render, end to end *)














(** ** Edge cases of the wrappers *)

(** X15: a wrapper exists only for a method name of the list that the
    context owns.  Called without argument, the wrapper of revision A
    passes the call on to the original method, that of revision B throws a
    [TypeError] and calls nothing.  Called with several arguments, the
    wrapper of revision B throws a [TypeError] when the first is
    [undefined] or [null], passes every argument on to the original method
    when the first is a string or an element, and for another object
    renders it exactly when its [type] property is an element. *)
Theorem X15_wrapper_edge_cases :
  (forall engine ctx name f,
      RevAHost.overrides engine ctx name = Some f ->
      ctx name = true /\ includes methods name = true /\
      forall log, f [] log = (Returns tt, (log ++ [(name, [])])%list)) /\
  (forall engine ctx name f,
      RevBHost.overrides engine ctx name = Some f ->
      ctx name = true /\ includes methods name = true /\
      (forall log, f [] log = (Throws TypeError, log)) /\
      (forall b rest log,
          f (VUndefined :: b :: rest) log = (Throws TypeError, log) /\
          f (VNull :: b :: rest) log = (Throws TypeError, log)) /\
      (forall s b rest log,
          f (VString s :: b :: rest) log =
          (Returns tt, (log ++ [(name, VString s :: b :: rest)])%list)) /\
      (forall ty p ch b rest log,
          f (VElement ty p ch :: b :: rest) log =
          (Returns tt, (log ++ [(name, VElement ty p ch :: b :: rest)])%list)) /\
      (forall t b rest log,
          f (VObject t :: b :: rest) log =
          if isElement t
          then RevBHost.render engine (VObject t) ctx name log
          else (Returns tt, (log ++ [(name, VObject t :: b :: rest)])%list))).
Proof.
  split; intros engine ctx name f Hf.
  - unfold RevAHost.overrides in Hf.
    destruct (ctx name) eqn:Ec; [| discriminate].
    destruct (includes methods name) eqn:Em; [| discriminate].
    cbn in Hf. inversion Hf. repeat split. intros log.
    cbn. unfold invoke. now rewrite Ec.
  - unfold RevBHost.overrides in Hf.
    destruct (ctx name) eqn:Ec; [| discriminate].
    destruct (includes methods name) eqn:Em; [| discriminate].
    cbn in Hf. inversion Hf.
    split; [reflexivity |]. split; [reflexivity |].
    split; [reflexivity |]. split; [split; reflexivity |].
    split; [| split].
    + intros s0 b rest log. cbn. unfold invoke. now rewrite Ec.
    + intros ty p ch b rest log. cbn. unfold invoke. now rewrite Ec.
    + intros t b rest log. cbn.
      destruct (isElement t); [reflexivity |].
      unfold invoke. now rewrite Ec.
Qed.

Lemma X15_wrapper_edge_cases_witness :
  exists f,
    RevBHost.overrides mountEngine stdConsole "log" = Some f /\
    f [] [] = (Throws TypeError, []) /\
    f [VString "%o"; VElement "span" noProps []] [] =
    (Returns tt, [("log", [VString "%o"; VElement "span" noProps []])]).
Proof.
  eexists. split; [reflexivity |].
  destruct (proj2 X15_wrapper_edge_cases mountEngine stdConsole "log" _
                  eq_refl) as [_ [_ [Hnone [_ [Hstring _]]]]].
  split; [apply Hnone | apply Hstring].
Defined.

